(** * ldif.py: the LDIF parser of ldif2csv, embedded in Rocq

    The development follows [src/ldif.py], python-ldap's [ldif] module
    0.5.5 as this repository has it: the imports of [urlparse] and
    [cStringIO], which only Python 2 has, are commented out, and line
    152 decodes the line that [readline] gave.  So the module runs
    under Python 3, on a file object that gives [bytes].  A
    [bytes] and a [str] value are both a [string] here, a [str] being
    written as its UTF-8 encoding; on 7-bit text that is the text
    itself, and the statements about the text of records are for 7-bit
    text.  The file object is the bytes that have not been read yet;
    [readline] splits off the next physical line. *)

From Stdlib Require Import Bool Arith Lia List String Ascii.
Import ListNotations.

Local Open Scope string_scope.
Local Open Scope list_scope.
Local Open Scope nat_scope.

Set Implicit Arguments.

(** ** Characters and Python string primitives *)

Definition LF : ascii := "010"%char.
Definition CR : ascii := "013"%char.

(** ["\n"] and ["\r\n"]. *)
Definition nl : string := String LF "".
Definition crnl : string := String CR (String LF "").

Module Py.

(** [s[:n]] for [0 <= n]. *)
Fixpoint take (n : nat) (s : string) : string :=
  match n, s with
  | S n', String c s' => String c (take n' s')
  | _, _ => ""
  end.

(** [s[n:]] for [0 <= n]. *)
Fixpoint drop (n : nat) (s : string) : string :=
  match n, s with
  | S n', String _ s' => drop n' s'
  | _, _ => s
  end.

(** [s[a:b]] for [0 <= a <= b]. *)
Definition slice (a b : nat) (s : string) : string := take (b - a) (drop a s).

(** [s[-n:]]: the last [n] characters, all of [s] when it is shorter. *)
Definition last_n (n : nat) (s : string) : string := drop (length s - n) s.

(** [s[:-n]]: all but the last [n] characters. *)
Definition but_last_n (n : nat) (s : string) : string := take (length s - n) s.

(** [s and s[0] == c]. *)
Definition first_is (c : ascii) (s : string) : bool :=
  match s with
  | String d _ => Ascii.eqb d c
  | "" => false
  end.

(** [s.index(c)]; [None] stands for the [ValueError]. *)
Fixpoint index (c : ascii) (s : string) : option nat :=
  match s with
  | "" => None
  | String d s' =>
      if Ascii.eqb d c then Some 0
      else match index c s' with
           | Some i => Some (S i)
           | None => None
           end
  end.

(** [c.isspace()] on 7-bit text: TAB, LF, VT, FF, CR, FS, GS, RS, US
    and SPACE. *)
Definition isspace (c : ascii) : bool :=
  let n := nat_of_ascii c in
  (((9 <=? n) && (n <=? 13)) || ((28 <=? n) && (n <=? 32)))%nat.

(** [s.lstrip()]. *)
Fixpoint lstrip (s : string) : string :=
  match s with
  | String c s' => if isspace c then lstrip s' else s
  | "" => ""
  end.

Definition lower_char (c : ascii) : ascii :=
  let n := nat_of_ascii c in
  if ((65 <=? n) && (n <=? 90))%nat then ascii_of_nat (n + 32) else c.

(** [s.lower()]. *)
Fixpoint lower (s : string) : string :=
  match s with
  | String c s' => String (lower_char c) (lower s')
  | "" => ""
  end.

(** [''.join(l)]. *)
Fixpoint join (l : list string) : string :=
  match l with
  | [] => ""
  | x :: l' => x ++ join l'
  end.

(** [x in l] for a list or the keys of a dict. *)
Definition mem (x : string) (l : list string) : bool :=
  existsb (String.eqb x) l.

(** [n == s] for an int [n] and a str [s]: values of these two types
    are never equal. *)
Definition int_eq_str (n : ascii) (s : string) : bool := false.

(** [b and b[0] == s] for bytes [b] and a str [s]: [b[0]] is an int. *)
Definition bytes_first_is (s : string) (b : string) : bool :=
  match b with
  | String n _ => int_eq_str n s
  | "" => false
  end.

End Py.

(** ** [bytes.decode('utf-8')] *)

Definition byte_in (lo hi : nat) (c : ascii) : bool :=
  ((lo <=? nat_of_ascii c) && (nat_of_ascii c <=? hi))%nat.

(** A byte that continues a sequence: 80..BF. *)
Definition utf8_tail (c : ascii) : bool := byte_in 128 191 c.

(** The bytes are well-formed UTF-8: one byte 00..7F; C2..DF and one
    more; E0..EF and two more, without the forms that are too long and
    the surrogates; F0..F4 and three more, up to U+10FFFF. *)
Fixpoint utf8_valid (b : string) : bool :=
  match b with
  | "" => true
  | String c0 b1 =>
      if byte_in 0 127 c0 then utf8_valid b1
      else
        match b1 with
        | "" => false
        | String c1 b2 =>
            if byte_in 194 223 c0 then utf8_tail c1 && utf8_valid b2
            else
              match b2 with
              | "" => false
              | String c2 b3 =>
                  if byte_in 224 239 c0 then
                    (if byte_in 224 224 c0 then byte_in 160 191 c1
                     else if byte_in 237 237 c0 then byte_in 128 159 c1
                     else utf8_tail c1)
                    && utf8_tail c2 && utf8_valid b3
                  else
                    match b3 with
                    | "" => false
                    | String c3 b4 =>
                        byte_in 240 244 c0
                        && (if byte_in 240 240 c0 then byte_in 144 191 c1
                            else if byte_in 244 244 c0 then byte_in 128 143 c1
                            else utf8_tail c1)
                        && utf8_tail c2 && utf8_tail c3 && utf8_valid b4
                    end
              end
        end
  end.

(** [b.decode('utf-8')]; [None] stands for the [UnicodeDecodeError].
    The [str] is written as the bytes that encode it. *)
Definition decode_utf8 (b : string) : option string :=
  if utf8_valid b then Some b else None.

(** ** The file object *)

(** [f.readline()]: the next physical line with its terminator, and
    the text left; [""] at the end of the file. *)
Fixpoint readline (f : string) : string * string :=
  match f with
  | "" => ("", "")
  | String c f' =>
      if Ascii.eqb c LF then (nl, f')
      else let (l, r) := readline f' in (String c l, r)
  end.

(** ** Records handed to the handler *)

(** An entry: attribute type to the list of its values, keys in the
    order of their first insertion. *)
Definition Entry := list (string * list string).

Fixpoint entry_has (k : string) (e : Entry) : bool :=
  match e with
  | [] => false
  | (k', _) :: e' => String.eqb k' k || entry_has k e'
  end.

(** [entry[k].append(v)] for a key that is present. *)
Fixpoint entry_append (k v : string) (e : Entry) : Entry :=
  match e with
  | [] => []
  | (k', vs) :: e' =>
      if String.eqb k' k then (k', vs ++ [v]) :: e'
      else (k', vs) :: entry_append k v e'
  end.

(** Lines 238-241: append to the values of [attr_type], or start them. *)
Definition entry_add (attr_type attr_value : string) (e : Entry) : Entry :=
  if entry_has attr_type e then entry_append attr_type attr_value e
  else e ++ [(attr_type, [attr_value])].

Definition entry_keys (e : Entry) : list string := map fst e.

(** ** Parser state *)

Record LDIFParser := mkParser {
  _input_file : string;               (* text not read yet *)
  _max_entries : nat;
  _ignored_attr_types : list string;  (* keys of the dict, lower case *)
  _line : string;
  records_read : nat;
  all_records : list (option string * Entry)  (* the calls of handle(), oldest first *)
}.

Inductive error :=
| TwoDnLines
| InvalidDn (attr_value : string)
| ChangetypeBeforeDn
| TwoChangetypeLines
| InvalidChangetype (attr_value : string)
| UnicodeDecodeError           (* line 152 *)
| DecodestringError.           (* line 183 *)

Inductive outcome (A : Type) :=
| Ok (a : A) (p : LDIFParser)
| Raise (e : error) (p : LDIFParser)
| OutOfFuel.
Arguments Raise {A} e p.
Arguments OutOfFuel {A}.

Definition bind {A B} (m : outcome A) (k : A -> LDIFParser -> outcome B) : outcome B :=
  match m with
  | Ok a p => k a p
  | Raise e p => Raise e p
  | OutOfFuel => OutOfFuel
  end.

Notation "'let*' ( a , p ) := m 'in' k" := (bind m (fun a p => k))
  (at level 10, a name, p name, m at level 100, k at level 200).

(** [self._line = self._input_file.readline()]. *)
Definition read_next (p : LDIFParser) : LDIFParser :=
  let (l, f) := readline (_input_file p) in
  mkParser f (_max_entries p) (_ignored_attr_types p) l (records_read p) (all_records p).

(** Characters still to be consumed: bounds every loop of the parser. *)
Definition pending (p : LDIFParser) : nat :=
  length (_line p) + length (_input_file p).

(** ** Line unfolder *)

(** [_stripLineSep]. *)
Definition _stripLineSep (s : string) : string :=
  if String.eqb (Py.last_n 2 s) crnl then Py.but_last_n 2 s
  else if String.eqb (Py.last_n 1 s) nl then Py.but_last_n 1 s
  else s.

(** The [while] loop of [_unfoldLDIFLine] (lines 155-157).  The line
    buffer holds the bytes that [readline] gave, and the test compares
    the first of them, an int, with the str [' ']. *)
Fixpoint unfold_loop (fuel : nat) (unfolded_lines : list string) (p : LDIFParser)
  : outcome (list string) :=
  match fuel with
  | O => OutOfFuel
  | S fuel' =>
      if Py.bytes_first_is " " (_line p) then
        unfold_loop fuel'
          (unfolded_lines ++ [_stripLineSep (Py.drop 1 (_line p))])
          (read_next p)
      else Ok unfolded_lines p
  end.

(** [_unfoldLDIFLine]; when line 152 raises, the line buffer is as it
    was. *)
Definition _unfoldLDIFLine (p : LDIFParser) : outcome string :=
  match decode_utf8 (_line p) with
  | None => Raise UnicodeDecodeError p
  | Some line =>
      let unfolded_lines := [_stripLineSep line] in
      let p := read_next p in
      let* (unfolded_lines, p) := unfold_loop (S (pending p)) unfolded_lines p in
      Ok (Py.join unfolded_lines) p
  end.

(** ** Regular expressions of the [re] module

    Enough of [re] for [dn_regex]: a backtracking matcher that tries
    the alternatives in the order of the pattern, as [re.match] does. *)

Inductive regex :=
| Eps
| Cls (f : ascii -> bool)     (* one character of a class *)
| Cat (r1 r2 : regex)
| Alt (r1 r2 : regex)         (* r1|r2 *)
| Star (r : regex)            (* r*, greedy *)
| LazyStar (r : regex)        (* r*?, minimal *)
| Bol                         (* ^ *)
| Eol.                        (* $ *)

(** [r+]. *)
Definition Plus (r : regex) : regex := Cat r (Star r).

(** [re_run r pos s k]: match [r] against [s], which starts at offset
    [pos] of the subject, then go on with [k]; [None] makes the matcher
    backtrack.  The result is the offset where the whole match ends.
    An iteration of a repetition has to consume a character. *)
Fixpoint re_run (r : regex) (pos : nat) (s : string)
    (k : nat -> string -> option nat) {struct r} : option nat :=
  match r with
  | Eps => k pos s
  | Cls f =>
      match s with
      | String c s' => if f c then k (S pos) s' else None
      | "" => None
      end
  | Cat r1 r2 => re_run r1 pos s (fun pos' s' => re_run r2 pos' s' k)
  | Alt r1 r2 =>
      match re_run r1 pos s k with
      | Some e => Some e
      | None => re_run r2 pos s k
      end
  | Star r' =>
      (fix loop (n : nat) (pos : nat) (s : string) {struct n} : option nat :=
         match n with
         | O => k pos s
         | S n' =>
             match re_run r' pos s
                     (fun pos' s' => if pos <? pos' then loop n' pos' s' else None) with
             | Some e => Some e
             | None => k pos s
             end
         end) (length s) pos s
  | LazyStar r' =>
      (fix loop (n : nat) (pos : nat) (s : string) {struct n} : option nat :=
         match n with
         | O => k pos s
         | S n' =>
             match k pos s with
             | Some e => Some e
             | None =>
                 re_run r' pos s
                   (fun pos' s' => if pos <? pos' then loop n' pos' s' else None)
             end
         end) (length s) pos s
  | Bol => if pos =? 0 then k pos s else None
  | Eol =>
      (* the end of the subject, or just before a final newline *)
      match s with
      | "" => k pos s
      | String c "" => if Ascii.eqb c LF then k pos s else None
      | _ => None
      end
  end.

(** [rm = r.match(s)] and [rm.group(0)]; [None] when there is no match. *)
Definition re_match_group0 (r : regex) (s : string) : option string :=
  match re_run r 0 s (fun pos _ => Some pos) with
  | Some e => Some (Py.take e s)
  | None => None
  end.



(** ** Module-level patterns (lines 39-43) *)

Definition in_range (lo hi : nat) (c : ascii) : bool :=
  let n := nat_of_ascii c in ((lo <=? n) && (n <=? hi))%nat.

(** [\w] of a byte pattern: [[a-zA-Z0-9_]]. *)
Definition word_char (c : ascii) : bool :=
  in_range 97 122 c || in_range 65 90 c || in_range 48 57 c || Ascii.eqb c "_".

Definition lit (c : ascii) : regex := Cls (Ascii.eqb c).

(** [[\w;.]+(;[\w_-]+)*] *)
Definition attrtype_pattern : regex :=
  Cat (Plus (Cls (fun c => word_char c || Ascii.eqb c ";" || Ascii.eqb c ".")))
      (Star (Cat (lit ";")
                 (Plus (Cls (fun c => word_char c || Ascii.eqb c "_" || Ascii.eqb c "-"))))).

(** [(([^,]|\\,)+|".*?")] *)
Definition attrvalue_pattern : regex :=
  Alt (Plus (Alt (Cls (fun c => negb (Ascii.eqb c ",")))
                 (Cat (lit "\") (lit ","))))
      (Cat (lit "034") (Cat (LazyStar (Cls (fun c => negb (Ascii.eqb c LF)))) (lit "034"))).

Definition spaces : regex := Star (lit " ").

(** [attrtype_pattern + r'[ ]*=[ ]*' + attrvalue_pattern] *)
Definition rdn_pattern : regex :=
  Cat attrtype_pattern (Cat spaces (Cat (lit "=") (Cat spaces attrvalue_pattern))).

(** [rdn_pattern + r'([ ]*,[ ]*' + rdn_pattern + r')*[ ]*'] *)
Definition dn_pattern : regex :=
  Cat rdn_pattern
      (Cat (Star (Cat spaces (Cat (lit ",") (Cat spaces rdn_pattern)))) spaces).

(** [re.compile('^%s$' % dn_pattern)] *)
Definition dn_regex : regex := Cat Bol (Cat dn_pattern Eol).

(** [CHANGE_TYPES]; [valid_changetype_dict] has these keys. *)
Definition CHANGE_TYPES : list string := ["add"; "delete"; "modify"; "modrdn"].
Definition valid_changetype_dict : list string := CHANGE_TYPES.

(** [is_dn]. *)
Definition is_dn (s : string) : bool :=
  if String.eqb s "" then true
  else match re_match_group0 dn_regex s with
       | Some g => String.eqb g s
       | None => false
       end.

(** [list_dict]: the keys of the dictionary. *)
Definition list_dict (l : list string) : list string := l.

(** ** [base64.decodestring]

    The tokenizer hands it a slice of the decoded line, a str.  Up to
    Python 3.8 the function is [decodebytes] under an older name and
    raises [TypeError] on a str; from Python 3.9 on the module has no
    function of this name and the call raises [AttributeError]. *)

Module Base64.

(** [base64.decodestring(s)] for a str [s]; [None] stands for the
    exception. *)
Definition decodestring (s : string) : option string := None.

End Base64.

(** ** Attribute tokenizer *)

(** What [_parseAttrTypeandValue] returns: [(attr_type, attr_value)]. *)
Definition token : Type := option string * option string.

(** The loop that skips comments (lines 169-170). *)
Fixpoint comment_loop (fuel : nat) (unfolded_line : string) (p : LDIFParser)
  : outcome string :=
  match fuel with
  | O => OutOfFuel
  | S fuel' =>
      if Py.first_is "#" unfolded_line then
        let* (unfolded_line, p) := _unfoldLDIFLine p in
        comment_loop fuel' unfolded_line p
      else Ok unfolded_line p
  end.

(** Lines 171-199: the pair for a logical line that is not a comment;
    [inl] is the exception of the call at line 183. *)
Definition attr_type_and_value (unfolded_line : string) : error + token :=
  if String.eqb unfolded_line "" || String.eqb unfolded_line nl
     || String.eqb unfolded_line crnl
  then inr (None, None)
  else
    match Py.index ":" unfolded_line with
    | None =>
        (* Treat malformed lines without colon as non-existent *)
        inr (None, None)
    | Some colon_pos =>
        let attr_type := Py.slice 0 colon_pos unfolded_line in
        let value_spec := Py.slice colon_pos (colon_pos + 2) unfolded_line in
        if String.eqb value_spec "::" then
          match Base64.decodestring (Py.drop (colon_pos + 2) unfolded_line) with
          | Some attr_value => inr (Some attr_type, Some attr_value)
          | None => inl DecodestringError
          end
        else if String.eqb value_spec ":<" then
          inr (Some attr_type, None)
        else if String.eqb value_spec (":" ++ crnl) || String.eqb value_spec nl then
          inr (Some attr_type, Some "")
        else
          inr (Some attr_type,
               Some (Py.lstrip (Py.drop (colon_pos + 2) unfolded_line)))
    end.

(** [_parseAttrTypeandValue]. *)
Definition _parseAttrTypeandValue (p : LDIFParser) : outcome token :=
  let* (unfolded_line, p) := _unfoldLDIFLine p in
  let* (unfolded_line, p) := comment_loop (S (S (pending p))) unfolded_line p in
  match attr_type_and_value unfolded_line with
  | inl e => Raise e p
  | inr tok => Ok tok p
  end.

(** ** Record assembler *)

(** The record under construction: [dn], [changetype], [entry]. *)
Definition record_vars : Type := option string * option string * Entry.

(** The body of the inner loop of [parse] (lines 219-241) for a pair
    whose two components are not [None]. *)
Definition record_step (ignored_attr_types : list string) (r : record_vars)
    (attr_type attr_value : string) : error + record_vars :=
  let '(dn, changetype, entry) := r in
  if String.eqb attr_type "dn" then
    match dn with
    | Some _ => inl TwoDnLines
    | None =>
        if negb (is_dn attr_value) then inl (InvalidDn attr_value)
        else inr (Some attr_value, changetype, entry)
    end
  else if String.eqb attr_type "changetype" then
    match dn with
    | None => inl ChangetypeBeforeDn
    | Some _ =>
        match changetype with
        | Some _ => inl TwoChangetypeLines
        | None =>
            if negb (Py.mem attr_value valid_changetype_dict)
            then inl (InvalidChangetype attr_value)
            else inr (dn, Some attr_value, entry)
        end
    end
  else if negb (Py.mem (Py.lower attr_type) ignored_attr_types) then
    inr (dn, changetype, entry_add attr_type attr_value entry)
  else inr r.

(** The inner loop of [parse] (lines 218-244); it returns [dn] and
    [entry]. *)
Fixpoint record_loop (fuel : nat) (r : record_vars) (tok : token) (p : LDIFParser)
  : outcome (option string * Entry) :=
  match fuel with
  | O => OutOfFuel
  | S fuel' =>
      match tok with
      | (Some attr_type, Some attr_value) =>
          match record_step (_ignored_attr_types p) r attr_type attr_value with
          | inl e => Raise e p
          | inr r' =>
              let* (tok', p) := _parseAttrTypeandValue p in
              record_loop fuel' r' tok' p
          end
      | _ => let '(dn, _, entry) := r in Ok (dn, entry) p
      end
  end.

(** [self.handle(dn, entry)] as [LDIFRecordList] implements it. *)
Definition handle (dn : option string) (entry : Entry) (p : LDIFParser) : LDIFParser :=
  mkParser (_input_file p) (_max_entries p) (_ignored_attr_types p) (_line p)
    (records_read p) (all_records p ++ [(dn, entry)]).

Definition incr_records_read (p : LDIFParser) : LDIFParser :=
  mkParser (_input_file p) (_max_entries p) (_ignored_attr_types p) (_line p)
    (records_read p + 1) (all_records p).

(** The outer loop of [parse] (lines 207-249). *)
Fixpoint parse_loop (fuel : nat) (p : LDIFParser) : outcome unit :=
  match fuel with
  | O => OutOfFuel
  | S fuel' =>
      if negb (String.eqb (_line p) "")
         && ((_max_entries p =? 0) || (records_read p <? _max_entries p))
      then
        let* (tok, p) := _parseAttrTypeandValue p in
        let* (r, p) := record_loop (S (S (pending p))) (None, None, []) tok p in
        let (dn, entry) := r in
        match entry with
        | [] => parse_loop fuel' p
        | _ :: _ => parse_loop fuel' (incr_records_read (handle dn entry p))
        end
      else Ok tt p
  end.

(** [LDIFParser.parse]. *)
Definition parse (p : LDIFParser) : outcome unit :=
  let p := read_next p in
  parse_loop (S (pending p)) p.

(** [LDIFRecordList(input_file, ignored_attr_types, max_entries)]. *)
Definition LDIFRecordList (input_file : string) (ignored_attr_types : list string)
    (max_entries : nat) : LDIFParser :=
  mkParser input_file max_entries
    (list_dict (map Py.lower ignored_attr_types)) "" 0 [].

(** The text of a list of lines, each ended by a newline. *)
Definition lines (l : list string) : string :=
  Py.join (map (fun s => s ++ nl)%string l).

(** ** LDIF text, for the statements about whole inputs *)

Fixpoint all_chars (f : ascii -> bool) (s : string) : bool :=
  match s with
  | "" => true
  | String c s' => f c && all_chars f s'
  end.

(** Neither a carriage return nor a newline. *)
Definition no_crlf (s : string) : bool :=
  all_chars (fun c => negb (Ascii.eqb c LF) && negb (Ascii.eqb c CR)) s.

(** 7-bit text: as bytes and as a str it is the same characters. *)
Definition is_7bit (s : string) : bool := all_chars (byte_in 0 127) s.

(** [s.lstrip() == s]. *)
Definition no_leading_space (s : string) : bool :=
  match s with
  | String c _ => negb (Py.isspace c)
  | "" => true
  end.

(** The parser [p] with [text] as what is left of its input, the first
    physical line of [text] being in the line buffer: the state between
    two calls of [_unfoldLDIFLine]. *)
Definition at_text (p : LDIFParser) (text : string) : LDIFParser :=
  mkParser (snd (readline text)) (_max_entries p) (_ignored_attr_types p)
    (fst (readline text)) (records_read p) (all_records p).

(** A line terminator: "\r\n" or "\n". *)
Definition line_sep (crlf : bool) : string := if crlf then crnl else nl.

(** Continuation lines: a space, the fragment, its terminator. *)
Fixpoint continuation_lines (frags : list (string * bool)) : string :=
  match frags with
  | [] => ""
  | (f, crlf) :: frags' => " " ++ f ++ line_sep crlf ++ continuation_lines frags'
  end.

(** A logical line folded into [1 + length rest] physical lines. *)
Definition folded (first : string * bool) (rest : list (string * bool)) : string :=
  fst first ++ line_sep (snd first) ++ continuation_lines rest.

(** The line [type: value]. *)
Definition attr_line (tv : string * string) : string :=
  fst tv ++ ": " ++ snd tv ++ nl.

Definition attr_lines (tvs : list (string * string)) : string :=
  Py.join (map attr_line tvs).

(** An attribute type of 7-bit text that can start a line and stands
    before the first colon of it. *)
Definition line_type_ok (t : string) : bool :=
  all_chars (fun c => negb (Ascii.eqb c ":")) t && no_crlf t
  && negb (Py.first_is " " t) && negb (Py.first_is "#" t) && is_7bit t.

(** A value of 7-bit text that [type: value] gives back as it is. *)
Definition line_value_ok (v : string) : bool :=
  no_crlf v && no_leading_space v && is_7bit v.

Definition line_ok (tv : string * string) : bool :=
  line_type_ok (fst tv) && line_value_ok (snd tv).

(** A record of the input: an optional [dn:] line and attribute lines. *)
Record ldif_record := mkRecord {
  r_dn : option string;
  r_attrs : list (string * string)
}.

Definition dn_line (dn : option string) : string :=
  match dn with
  | Some d => attr_line ("dn", d)
  | None => ""
  end.

(** A record ends with an empty line. *)
Definition record_text (r : ldif_record) : string :=
  dn_line (r_dn r) ++ attr_lines (r_attrs r) ++ nl.

Definition ldif_text (rs : list ldif_record) : string :=
  Py.join (map record_text rs).

(** An ordinary attribute line: neither [dn] nor [changetype]. *)
Definition attr_ok (tv : string * string) : bool :=
  line_ok tv
  && negb (String.eqb (fst tv) "dn") && negb (String.eqb (fst tv) "changetype").

(** The attributes that a parser ignoring [ignored] keeps. *)
Definition kept (ignored : list string) (tvs : list (string * string))
  : list (string * string) :=
  filter (fun tv => negb (Py.mem (Py.lower (fst tv)) (map Py.lower ignored))) tvs.

Definition dn_ok (dn : option string) : bool :=
  match dn with
  | Some d => is_dn d && line_value_ok d
  | None => true
  end.

(** A well-formed record. *)
Definition record_ok (r : ldif_record) : bool :=
  dn_ok (r_dn r) && forallb attr_ok (r_attrs r).

(** The entry that the attribute lines build, from the empty one. *)
Definition entry_of (tvs : list (string * string)) : Entry :=
  fold_left (fun e tv => entry_add (fst tv) (snd tv) e) tvs [].

(** The record has an attribute that is not ignored: its entry is not
    empty. *)
Definition has_entry (ignored : list string) (r : ldif_record) : bool :=
  match kept ignored (r_attrs r) with
  | [] => false
  | _ :: _ => true
  end.

(** What the handler is to receive for a record. *)
Definition dispatched (ignored : list string) (r : ldif_record)
  : option string * Entry :=
  (r_dn r, entry_of (kept ignored (r_attrs r))).

(** The lines of a record break one of the rules of [dn:] and
    [changetype:] lines. *)
Inductive violation : list (string * string) -> Prop :=
| SecondDn pre v post :
    In "dn" (map fst pre) -> violation (pre ++ ("dn", v) :: post)
| BadDn pre v post :
    is_dn v = false -> violation (pre ++ ("dn", v) :: post)
| ChangetypeFirst pre v post :
    ~ In "dn" (map fst pre) -> violation (pre ++ ("changetype", v) :: post)
| SecondChangetype pre v post :
    In "changetype" (map fst pre) -> violation (pre ++ ("changetype", v) :: post)
| BadChangetype pre v post :
    ~ In v CHANGE_TYPES -> violation (pre ++ ("changetype", v) :: post).

(** The loop condition of [parse]: input left and the cap not reached. *)
Definition may_start_record (p : LDIFParser) : bool :=
  negb (String.eqb (_line p) "")
  && ((_max_entries p =? 0) || (records_read p <? _max_entries p)).

(** The outcomes that are a result of the program. *)
Definition final_state {A} (o : outcome A) : option LDIFParser :=
  match o with
  | Ok _ p => Some p
  | Raise _ p => Some p
  | OutOfFuel => None
  end.

(** What the tokenizer leaves alone in the parser. *)
Definition same_vars (p p' : LDIFParser) : Prop :=
  _max_entries p' = _max_entries p /\
  _ignored_attr_types p' = _ignored_attr_types p /\
  records_read p' = records_read p /\
  all_records p' = all_records p.

(** No key of the entry is, in lower case, in the dict of ignored types. *)
Definition keys_ok (ignored_attr_types : list string) (e : Entry) : bool :=
  forallb (fun k => negb (Py.mem (Py.lower k) ignored_attr_types)) (entry_keys e).

(** Every entry handed over so far has keys that are not ignored. *)
Definition handled_ok (p : LDIFParser) : bool :=
  forallb (fun de => keys_ok (_ignored_attr_types p) (snd de)) (all_records p).

(** The lines of a record before the empty line that ends it. *)
Definition record_lines (r : ldif_record) : list (string * string) :=
  match r_dn r with
  | Some d => ("dn", d) :: r_attrs r
  | None => r_attrs r
  end.

(** The inner loop of [parse] on pairs already read. *)
Fixpoint assemble (ignored_attr_types : list string) (r : record_vars)
    (toks : list (string * string)) : error + record_vars :=
  match toks with
  | [] => inr r
  | (attr_type, attr_value) :: toks' =>
      match record_step ignored_attr_types r attr_type attr_value with
      | inl e => inl e
      | inr r' => assemble ignored_attr_types r' toks'
      end
  end.

(** The records that a parser with the cap [max_entries] and
    [records_read] records behind it hands over: those with an entry,
    as long as the cap allows. *)
Fixpoint accepted (ignored : list string) (max_entries records_read : nat)
    (rs : list ldif_record) : list ldif_record :=
  match rs with
  | [] => []
  | r :: rs' =>
      if (max_entries =? 0) || (records_read <? max_entries) then
        if has_entry ignored r
        then r :: accepted ignored max_entries (records_read + 1) rs'
        else accepted ignored max_entries records_read rs'
      else []
  end.

(** ** The rest of the module *)








(** A dict as the list of its items; [d.get(k)]. *)
Fixpoint dict_get {K V : Type} (eqb : K -> K -> bool) (k : K) (d : list (K * V))
  : option V :=
  match d with
  | [] => None
  | (k', v) :: d' => if eqb k' k then Some v else dict_get eqb k d'
  end.

(** [MOD_OP_INTEGER] and [MOD_OP_STR]. *)
Definition MOD_OP_INTEGER : list (string * nat) :=
  [("add", 0); ("delete", 1); ("replace", 2)].

Definition MOD_OP_STR : list (nat * string) :=
  [(0, "add"); (1, "delete"); (2, "replace")].

(** [entry.get(k)]. *)
Definition entry_get (k : string) (e : Entry) : option (list string) :=
  dict_get String.eqb k e.

(** [ParseLDIF(f, ignore_attrs, maxentries)]: the records collected by
    an [LDIFRecordList]; an exception of [parse] leaves the function. *)
Definition ParseLDIF (f : string) (ignore_attrs : list string) (maxentries : nat)
  : outcome (list (option string * Entry)) :=
  let ldif_parser := LDIFRecordList f ignore_attrs maxentries in
  let* (_, ldif_parser) := parse ldif_parser in
  Ok (all_records ldif_parser) ldif_parser.

(** ** Notions for the statements about the rest *)



(** The last character is [c]. *)
Fixpoint ends_with (c : ascii) (s : string) : bool :=
  match s with
  | "" => false
  | String d "" => Ascii.eqb d c
  | String _ s' => ends_with c s'
  end.

(** The values of the lines of type [t], in their order. *)
Definition values_of (t : string) (toks : list (string * string)) : list string :=
  map snd (filter (fun tv => String.eqb (fst tv) t) toks).

(** What the parser may hand to the handler as dn. *)
Definition dn_good (dn : option string) : Prop :=
  match dn with
  | Some d => is_dn d = true
  | None => True
  end.

(** An entry as the inner loop builds them: keys that differ from each
    other and from [dn] and [changetype], and no key without a value. *)
Definition entry_good (e : Entry) : Prop :=
  NoDup (entry_keys e) /\
  ~ In "dn" (entry_keys e) /\ ~ In "changetype" (entry_keys e) /\
  Forall (fun kv => snd kv <> []) e.

(** A call of the handler as [parse] makes them. *)
Definition call_good (de : option string * Entry) : Prop :=
  dn_good (fst de) /\ snd de <> [] /\ entry_good (snd de).

(** The parser [p] after the handler has received [l] more records. *)
Definition after_calls (p : LDIFParser) (l : list (option string * Entry))
  : LDIFParser :=
  mkParser (_input_file p) (_max_entries p) (_ignored_attr_types p) (_line p)
    (records_read p + List.length l) (all_records p ++ l).

(** A comment on one physical line. *)
Definition comment_line (c : string) (crlf : bool) : string :=
  String "#" c ++ line_sep crlf.




(** The line buffer is empty only at the end of the input. *)
Definition line_buffer_ok (p : LDIFParser) : Prop :=
  _line p = "" -> _input_file p = "".

(** * Properties *)

Unset Implicit Arguments.

(** ** The matcher is sound for the language of the pattern *)

Lemma append_nil_r (s : string) : (s ++ "")%string = s.
Proof. induction s as [|c s IH]; simpl; congruence. Qed.

Lemma append_assoc (s1 s2 s3 : string) :
  ((s1 ++ s2) ++ s3)%string = (s1 ++ (s2 ++ s3))%string.
Proof. induction s1 as [|c s1 IH]; simpl; congruence. Qed.

Lemma length_append (s1 s2 : string) :
  length (s1 ++ s2) = length s1 + length s2.
Proof. induction s1 as [|c s1 IH]; simpl; congruence. Qed.


Lemma take_length_append (s1 s2 : string) : Py.take (length s1) (s1 ++ s2) = s1.
Proof. induction s1 as [|c s1 IH]; simpl; [now destruct s2|congruence]. Qed.





(** ** Slices and [index] *)

Lemma drop_length_append (s1 s2 : string) : Py.drop (length s1) (s1 ++ s2) = s2.
Proof. induction s1 as [|c s1 IH]; simpl; auto. Qed.

Lemma drop_add (n m : nat) (s : string) : Py.drop (n + m) s = Py.drop m (Py.drop n s).
Proof.
  revert s. induction n as [|n IH]; intros s; simpl; auto.
  destruct s as [|c s]; auto. now destruct m.
Qed.

Lemma slice_0 (n : nat) (s : string) : Py.slice 0 n s = Py.take n s.
Proof. unfold Py.slice. now rewrite Nat.sub_0_r. Qed.

Lemma slice_at (n m : nat) (s : string) :
  Py.slice n (n + m) s = Py.take m (Py.drop n s).
Proof. unfold Py.slice. f_equal. lia. Qed.

Lemma index_Some_split (c : ascii) (s : string) (i : nat) :
  Py.index c s = Some i ->
  exists t r, s = (t ++ String c r)%string /\ length t = i /\ Py.index c t = None.
Proof.
  revert i. induction s as [|d s IH]; simpl; intros i H; [discriminate|].
  destruct (Ascii.eqb_spec d c) as [->|Hdc].
  - injection H as <-. now exists "", s.
  - destruct (Py.index c s) as [j|]; [|discriminate]. injection H as <-.
    destruct (IH j eq_refl) as (t & r & -> & Hl & Hn).
    exists (String d t), r. simpl. rewrite Hn.
    destruct (Ascii.eqb_spec d c); [contradiction|]. now rewrite Hl.
Qed.

Lemma index_append_found (c : ascii) (t r : string) :
  Py.index c t = None -> Py.index c (t ++ String c r) = Some (length t).
Proof.
  induction t as [|d t IH]; simpl; intros H.
  - now rewrite Ascii.eqb_refl.
  - destruct (Ascii.eqb d c); [discriminate|].
    destruct (Py.index c t); [discriminate|]. now rewrite IH.
Qed.

(** A line with a colon is not one of the three blank lines. *)
Lemma colon_line_not_blank (t r : string) :
  (String.eqb (t ++ String ":" r) "" || String.eqb (t ++ String ":" r) nl
   || String.eqb (t ++ String ":" r) crnl) = false.
Proof.
  assert (H : forall s, Py.index ":" s = None -> s <> (t ++ String ":" r)%string).
  { intros s Hs ->. revert Hs. clear. induction t as [|d t IH]; simpl.
    - discriminate.
    - destruct (Ascii.eqb d ":"); [discriminate|].
      destruct (Py.index ":" (t ++ String ":" r)); [discriminate|]. now intros _; apply IH. }
  repeat match goal with
         | |- context [String.eqb ?a ?b] =>
             destruct (String.eqb_spec a b) as [E|_];
             [exfalso; symmetry in E; revert E; apply H; reflexivity|]
         end.
  reflexivity.
Qed.

(** The branch for [':\r\n'] and ['\n'] is never taken: [value_spec]
    has at most two characters and starts with the colon. *)
Lemma value_spec_not_line_end (r : string) :
  (String.eqb (Py.take 2 (String ":" r)) (":" ++ crnl)
   || String.eqb (Py.take 2 (String ":" r)) nl) = false.
Proof.
  destruct r as [|a [|b r]]; cbn;
    repeat match goal with
           | |- context [Ascii.eqb ?x ?y] => destruct (Ascii.eqb x y)
           end; reflexivity.
Qed.

(** The four branches of the tokenizer on a line with a colon at
    [length t], its first. *)
Lemma attr_type_and_value_colon (t r : string) :
  Py.index ":" t = None ->
  attr_type_and_value (t ++ String ":" r) =
    if String.eqb (Py.take 2 (String ":" r)) "::" then
      match Base64.decodestring (Py.drop 1 r) with
      | Some v => inr (Some t, Some v)
      | None => inl DecodestringError
      end
    else if String.eqb (Py.take 2 (String ":" r)) ":<" then inr (Some t, None)
    else inr (Some t, Some (Py.lstrip (Py.drop 1 r))).
Proof.
  intros Ht. unfold attr_type_and_value.
  rewrite colon_line_not_blank, (index_append_found _ _ _ Ht).
  rewrite slice_0, slice_at, take_length_append, drop_add, drop_length_append.
  rewrite value_spec_not_line_end. reflexivity.
Qed.

(** ** The tokenizer on one logical line *)

Lemma attr_type_and_value_skip (t : string) (c : ascii) (v : string) :
  Py.index ":" t = None -> c <> ":"%char -> c <> "<"%char ->
  attr_type_and_value (t ++ String ":" (String c v)) =
    inr (Some t, Some (Py.lstrip v)).
Proof.
  intros Ht Hc1 Hc2.
  rewrite attr_type_and_value_colon by exact Ht. cbn.
  apply Ascii.eqb_neq in Hc1, Hc2. now rewrite Hc1, Hc2.
Qed.



(** C8, as the code behaves: the line "attr:: aGVsbG8=", where
    "aGVsbG8=" is the base64 form of "hello", gives no pair.  With "::"
    at the first colon the tokenizer calls [base64.decodestring] on the
    text after the two colons, a str, and the call raises whatever that
    text is.  Nothing catches the exception: the inner and the outer
    loop of [parse] pass it on, so a record with such a line ends the
    run. *)
Theorem base64_line_is_fatal :
  attr_type_and_value "attr:: aGVsbG8=" = inl DecodestringError /\
  (forall u colon_pos,
      Py.index ":" u = Some colon_pos ->
      Py.slice colon_pos (colon_pos + 2) u = "::" ->
      attr_type_and_value u = inl DecodestringError) /\
  (forall p fuel r t v r' e p',
      record_step (_ignored_attr_types p) r t v = inr r' ->
      _parseAttrTypeandValue p = Raise e p' ->
      record_loop (S fuel) r (Some t, Some v) p = Raise e p') /\
  (forall p fuel e p',
      _line p <> "" ->
      _max_entries p = 0 \/ records_read p < _max_entries p ->
      _parseAttrTypeandValue p = Raise e p' ->
      parse_loop (S fuel) p = Raise e p') /\
  parse (LDIFRecordList (lines ["dn: cn=a"; "sn: y"; "attr:: aGVsbG8="; ""]) [] 0) =
    Raise DecodestringError (mkParser "" 0 [] nl 0 []).
Proof.
  split; [reflexivity|]. split; [|split; [|split; [|reflexivity]]].
  - intros u colon_pos Hi H.
    destruct (index_Some_split _ _ _ Hi) as (t & r & -> & <- & Ht).
    rewrite slice_at, drop_length_append in H.
    rewrite attr_type_and_value_colon by exact Ht. now rewrite H.
  - intros p fuel r t v r' e p' Hs Ht. cbn [record_loop]. now rewrite Hs, Ht.
  - intros p fuel e p' Hl Hm Ht. cbn [parse_loop].
    apply String.eqb_neq in Hl. rewrite Hl, Ht. cbn [negb andb bind].
    destruct Hm as [->|Hm]; [reflexivity|].
    apply Nat.ltb_lt in Hm. now rewrite Hm, orb_true_r.
Qed.

Lemma base64_line_is_fatal_witness :
  attr_type_and_value "cn:: aGVsbG8=" = inl DecodestringError.
Proof.
  apply (proj1 (proj2 base64_line_is_fatal) "cn:: aGVsbG8=" 2);
    reflexivity.
Defined.

(** ** A line without a value ends the record *)

(** C1, as the code behaves: a line without a colon gives the pair
    [(None, None)] and a ":<" line a pair without value; the inner loop
    of [parse] stops at either, as it does at the end of a record.  So
    a line without a colon between "cn: x" and "sn: y" ends the record,
    which is handed over with "cn" alone, and "sn: y" becomes a record
    of its own, without a dn.  A ":<" line does the same. *)
Theorem nil_value_token_ends_record :
  attr_type_and_value "bad line" = inr (None, None) /\
  attr_type_and_value "photo:< file:///tmp/p.jpg" = inr (Some "photo", None) /\
  (forall fuel dn changetype entry attr_type p,
      record_loop (S fuel) (dn, changetype, entry) (attr_type, None) p =
        Ok (dn, entry) p) /\
  parse (LDIFRecordList (lines ["dn: cn=a"; "cn: x"; "bad line"; "sn: y"; ""]) [] 0) =
    Ok tt (mkParser "" 0 [] "" 2
             [(Some "cn=a", [("cn", ["x"])]); (None, [("sn", ["y"])])]) /\
  parse (LDIFRecordList
           (lines ["dn: cn=a"; "cn: x"; "photo:< file:///tmp/p.jpg"; "sn: y"; ""]) [] 0) =
    Ok tt (mkParser "" 0 [] "" 2
             [(Some "cn=a", [("cn", ["x"])]); (None, [("sn", ["y"])])]).
Proof.
  split; [reflexivity|]. split; [reflexivity|]. split; [|split; reflexivity].
  intros fuel dn changetype entry [t|] p; reflexivity.
Qed.

(** C2, as the code behaves: of two records, each with a [dn:] line
    and attribute lines, the second has a ":<" line between "cn: y" and
    "sn: z".  That line ends the record as an empty line would, so the
    handler is called three times for the two records, the third time
    without a dn and with "sn" alone, and [records_read] is 3. *)
Theorem url_line_splits_a_record :
  parse (LDIFRecordList
           (lines ["dn: cn=a"; "cn: x"; "";
                   "dn: cn=b"; "cn: y"; "photo:< file:///tmp/p.jpg"; "sn: z"; ""])
           [] 0) =
    Ok tt (mkParser "" 0 [] "" 3
             [(Some "cn=a", [("cn", ["x"])]); (Some "cn=b", [("cn", ["y"])]);
              (None, [("sn", ["z"])])]).
Proof. reflexivity. Qed.

(** C3, as the code behaves: a record with two [dn:] lines and a ":<"
    line between them, or a line without a colon, is read without an
    error.  The line between them ends the record, which has no
    attribute yet and is dropped, and the second [dn:] line starts what
    the handler gets as a record. *)
Theorem second_dn_line_not_noticed :
  parse (LDIFRecordList
           (lines ["dn: cn=a"; "photo:< file:///tmp/p.jpg"; "dn: cn=b"; "cn: x"; ""])
           [] 0) =
    Ok tt (mkParser "" 0 [] "" 1 [(Some "cn=b", [("cn", ["x"])])]) /\
  parse (LDIFRecordList
           (lines ["dn: cn=a"; "bad line"; "dn: cn=b"; "cn: x"; ""]) [] 0) =
    Ok tt (mkParser "" 0 [] "" 1 [(Some "cn=b", [("cn", ["x"])])]).
Proof. split; reflexivity. Qed.

(** C4, as the code behaves: with the cap 1 and six records, of which
    the first has a ":<" line between "cn: x" and "sn: y", [parse]
    returns after one call of the handler, with "cn" alone: the record
    is cut at the ":<" line, the cap is reached, and "sn: y" is left in
    the line buffer. *)
Theorem cap_reached_on_a_cut_record :
  parse (LDIFRecordList
           (lines ["dn: cn=a"; "cn: x"; "photo:< file:///tmp/p.jpg"; "sn: y"; "";
                   "dn: cn=b"; "cn: b"; ""; "dn: cn=c"; "cn: c"; "";
                   "dn: cn=d"; "cn: d"; ""; "dn: cn=e"; "cn: e"; "";
                   "dn: cn=f"; "cn: f"; ""])
           [] 1) =
    Ok tt (mkParser
             (lines [""; "dn: cn=b"; "cn: b"; ""; "dn: cn=c"; "cn: c"; "";
                     "dn: cn=d"; "cn: d"; ""; "dn: cn=e"; "cn: e"; "";
                     "dn: cn=f"; "cn: f"; ""])
             1 [] (lines ["sn: y"]) 1 [(Some "cn=a", [("cn", ["x"])])]).
Proof. reflexivity. Qed.

(** ** Physical lines *)

Lemma all_chars_index (f : ascii -> bool) (c : ascii) (s : string) :
  all_chars f s = true -> f c = false -> Py.index c s = None.
Proof.
  intros Hs Hc. induction s as [|d s IH]; simpl in *; auto.
  apply andb_prop in Hs as [Hd Hs].
  destruct (Ascii.eqb_spec d c) as [->|_]; [congruence|]. now rewrite IH.
Qed.

Lemma all_chars_append (f : ascii -> bool) (s1 s2 : string) :
  all_chars f (s1 ++ s2) = all_chars f s1 && all_chars f s2.
Proof. induction s1 as [|c s1 IH]; simpl; auto. now rewrite IH, andb_assoc. Qed.

Lemma no_crlf_no_lf (s : string) : no_crlf s = true -> Py.index LF s = None.
Proof. intros H. apply (all_chars_index _ _ _ H). reflexivity. Qed.

Lemma readline_line (l T : string) :
  Py.index LF l = None -> readline (l ++ String LF T) = ((l ++ nl)%string, T).
Proof.
  induction l as [|c l IH]; simpl; intros H; auto.
  destruct (Ascii.eqb c LF); [discriminate|].
  destruct (Py.index LF l); [discriminate|]. now rewrite IH.
Qed.

Lemma readline_length (f : string) :
  length (fst (readline f)) + length (snd (readline f)) = length f.
Proof.
  induction f as [|c f IH]; simpl; auto.
  destruct (Ascii.eqb c LF); simpl; auto.
  destruct (readline f); simpl in *. now rewrite IH.
Qed.

Lemma readline_first (c : ascii) (f : string) :
  Py.first_is c (fst (readline f)) = Py.first_is c f.
Proof.
  destruct f as [|d f]; simpl; auto.
  destruct (Ascii.eqb_spec d LF) as [->|_]; simpl; auto.
  now destruct (readline f).
Qed.

Lemma readline_empty (f : string) : fst (readline f) = "" -> f = "".
Proof.
  destruct f as [|c f]; simpl; auto.
  destruct (Ascii.eqb c LF); [discriminate|]. now destruct (readline f).
Qed.

Lemma readline_sep (l T : string) (crlf : bool) :
  no_crlf l = true ->
  readline (l ++ line_sep crlf ++ T) = ((l ++ line_sep crlf)%string, T).
Proof.
  intros H. destruct crlf; simpl.
  - replace (l ++ String CR (String LF T))%string
      with ((l ++ String CR "") ++ String LF T)%string
      by (now rewrite append_assoc).
    replace (l ++ crnl)%string with ((l ++ String CR "") ++ nl)%string
      by (now rewrite append_assoc).
    apply readline_line.
    apply all_chars_index with (f := fun c => negb (Ascii.eqb c LF)); auto.
    rewrite all_chars_append. simpl. rewrite andb_true_r.
    revert H. unfold no_crlf. clear. induction l as [|c l IH]; simpl; auto.
    intros H. apply andb_prop in H as [H1 H2]. apply andb_prop in H1 as [H1 _].
    now rewrite H1, IH.
  - apply readline_line. now apply no_crlf_no_lf.
Qed.

Lemma take_0 (s : string) : Py.take 0 s = "".
Proof. now destruct s. Qed.

Lemma strip_crnl (l : string) : _stripLineSep (l ++ crnl) = l.
Proof.
  unfold _stripLineSep, Py.last_n, Py.but_last_n.
  rewrite length_append. simpl length.
  replace (length l + 2 - 2) with (length l) by lia.
  now rewrite drop_length_append, take_length_append.
Qed.

Lemma drop_nl_not_crnl (l : string) (n : nat) :
  no_crlf l = true -> Py.drop n (l ++ nl) <> crnl.
Proof.
  revert n. induction l as [|c l IH]; intros n H.
  - destruct n as [|[|n]]; discriminate.
  - simpl in H. apply andb_prop in H as [Hc H]. apply andb_prop in Hc as [_ Hc].
    destruct n as [|n]; simpl.
    + intros E. injection E as -> _. discriminate.
    + now apply IH.
Qed.

Lemma strip_nl (l : string) : no_crlf l = true -> _stripLineSep (l ++ nl) = l.
Proof.
  intros H. unfold _stripLineSep, Py.last_n, Py.but_last_n.
  destruct (String.eqb_spec (Py.drop (length (l ++ nl) - 2) (l ++ nl)) crnl) as [E|_].
  - now apply drop_nl_not_crnl in E.
  - rewrite length_append. simpl length.
    replace (length l + 1 - 1) with (length l) by lia.
    now rewrite drop_length_append, take_length_append.
Qed.

Lemma strip_sep (l : string) (crlf : bool) :
  no_crlf l = true -> _stripLineSep (l ++ line_sep crlf) = l.
Proof. destruct crlf; [intros _; apply strip_crnl|apply strip_nl]. Qed.

Lemma read_next_at_text (p : LDIFParser) (T : string) :
  read_next (at_text p T) = at_text p (snd (readline T)).
Proof. unfold read_next, at_text. simpl. now destruct (readline (snd (readline T))). Qed.

Lemma at_text_sep (p : LDIFParser) (l T : string) (crlf : bool) :
  no_crlf l = true ->
  _line (at_text p (l ++ line_sep crlf ++ T)) = (l ++ line_sep crlf)%string /\
  read_next (at_text p (l ++ line_sep crlf ++ T)) = at_text p T.
Proof.
  intros H. rewrite read_next_at_text. unfold at_text at 1. simpl.
  now rewrite (readline_sep _ _ _ H).
Qed.

Lemma pending_at_text (p : LDIFParser) (T : string) : pending (at_text p T) = length T.
Proof. unfold pending, at_text. simpl. apply readline_length. Qed.

Lemma first_is_at_text (c : ascii) (p : LDIFParser) (T : string) :
  Py.first_is c (_line (at_text p T)) = Py.first_is c T.
Proof. apply readline_first. Qed.

(** ** Unfolding *)

Lemma join_app (l1 l2 : list string) :
  Py.join (l1 ++ l2) = (Py.join l1 ++ Py.join l2)%string.
Proof. induction l1 as [|x l1 IH]; simpl; auto. now rewrite IH, append_assoc. Qed.

Lemma utf8_valid_7bit (s : string) : is_7bit s = true -> utf8_valid s = true.
Proof.
  unfold is_7bit. induction s as [|c s IH]; cbn [all_chars utf8_valid]; auto.
  intros H. apply andb_prop in H as [-> H]. now apply IH.
Qed.

Lemma decode_7bit (s : string) : is_7bit s = true -> decode_utf8 s = Some s.
Proof. intros H. unfold decode_utf8. now rewrite utf8_valid_7bit. Qed.

Lemma is_7bit_append (s1 s2 : string) :
  is_7bit (s1 ++ s2) = is_7bit s1 && is_7bit s2.
Proof. apply all_chars_append. Qed.

Lemma is_7bit_sep (l : string) (crlf : bool) :
  is_7bit l = true -> is_7bit (l ++ line_sep crlf) = true.
Proof. intros H. rewrite is_7bit_append, H. now destruct crlf. Qed.

(** The loop of the unfolder takes no turn. *)
Lemma unfold_loop_S (fuel : nat) (unfolded_lines : list string) (p : LDIFParser) :
  unfold_loop (S fuel) unfolded_lines p = Ok unfolded_lines p.
Proof. cbn [unfold_loop]. now destruct (_line p). Qed.

Lemma unfold_eq (p : LDIFParser) :
  _unfoldLDIFLine p =
    match decode_utf8 (_line p) with
    | None => Raise UnicodeDecodeError p
    | Some line => Ok (_stripLineSep line) (read_next p)
    end.
Proof.
  unfold _unfoldLDIFLine. destruct (decode_utf8 (_line p)) as [line|]; [|reflexivity].
  rewrite unfold_loop_S. cbn [bind Py.join]. now rewrite append_nil_r.
Qed.

(** One physical line of 7-bit text is one logical line. *)
Lemma unfold_line (p : LDIFParser) (l : string) (crlf : bool) (T : string) :
  no_crlf l = true -> is_7bit l = true ->
  _unfoldLDIFLine (at_text p (l ++ line_sep crlf ++ T)) = Ok l (at_text p T).
Proof.
  intros Hl H7. rewrite unfold_eq.
  destruct (at_text_sep p _ T crlf Hl) as [-> ->].
  rewrite decode_7bit by now apply is_7bit_sep.
  now rewrite (strip_sep _ _ Hl).
Qed.

(** C6, as the code behaves: the loop that is to append the
    continuation lines takes no turn, so the unfolder gives the first
    physical line without its terminator and leaves the next one in the
    line buffer, whether it starts with a space or not.  The value
    "Alice" folded after "Al" is read as "Al", where the same value on
    one line is read as "Alice"; the continuation line is then read as
    a line of its own, one without a colon, which ends the record. *)
Theorem continuation_lines_are_not_joined :
  (forall fuel unfolded_lines p,
      unfold_loop (S fuel) unfolded_lines p = Ok unfolded_lines p) /\
  (forall p,
      _unfoldLDIFLine p =
        match decode_utf8 (_line p) with
        | None => Raise UnicodeDecodeError p
        | Some line => Ok (_stripLineSep line) (read_next p)
        end) /\
  _parseAttrTypeandValue
    (at_text (LDIFRecordList "" [] 0)
       (folded ("cn: Al", false) [("ice", false)] ++ lines ["sn: x"; ""])) =
    Ok (Some "cn", Some "Al")
       (at_text (LDIFRecordList "" [] 0) (lines [" ice"; "sn: x"; ""])) /\
  _parseAttrTypeandValue
    (at_text (LDIFRecordList "" [] 0) (lines ["cn: Alice"; "sn: x"; ""])) =
    Ok (Some "cn", Some "Alice")
       (at_text (LDIFRecordList "" [] 0) (lines ["sn: x"; ""])) /\
  parse (LDIFRecordList (lines ["dn: cn=a"; "cn: Al"; " ice"; "sn: x"; ""]) [] 0) =
    Ok tt (mkParser "" 0 [] "" 2
             [(Some "cn=a", [("cn", ["Al"])]); (None, [("sn", ["x"])])]).
Proof.
  split; [exact unfold_loop_S|]. split; [exact unfold_eq|].
  split; [reflexivity|]. split; reflexivity.
Qed.

(** ** Every loop ends, and the tokenizer keeps the parser's variables *)

Lemma same_vars_refl (p : LDIFParser) : same_vars p p.
Proof. repeat split. Qed.

Lemma same_vars_trans (p1 p2 p3 : LDIFParser) :
  same_vars p1 p2 -> same_vars p2 p3 -> same_vars p1 p3.
Proof. unfold same_vars. intuition congruence. Qed.

Lemma same_vars_read_next (p : LDIFParser) : same_vars p (read_next p).
Proof. unfold read_next. destruct (readline (_input_file p)). repeat split. Qed.

Lemma pending_read_next (p : LDIFParser) :
  pending (read_next p) = length (_input_file p).
Proof.
  unfold pending, read_next.
  pose proof (readline_length (_input_file p)) as H.
  destruct (readline (_input_file p)). exact H.
Qed.

Lemma first_is_nonempty (c : ascii) (s : string) :
  Py.first_is c s = true -> 1 <= length s.
Proof. destruct s; simpl; [discriminate|lia]. Qed.

Lemma length_0_empty (s : string) : length s = 0 -> s = "".
Proof. destruct s; simpl; [auto|discriminate]. Qed.

Lemma strip_empty_line (s : string) : _stripLineSep s <> "" -> s <> "".
Proof. intros H ->. now apply H. Qed.

Lemma unfold_total (p : LDIFParser) :
  (exists u p',
      _unfoldLDIFLine p = Ok u p' /\ same_vars p p' /\ pending p' <= pending p /\
      (u <> "" -> pending p' < pending p) /\
      (_line p <> "" -> pending p' < pending p)) \/
  _unfoldLDIFLine p = Raise UnicodeDecodeError p.
Proof.
  rewrite unfold_eq. unfold decode_utf8.
  destruct (utf8_valid (_line p)); [left|now right].
  assert (H1 : pending (read_next p) + length (_line p) = pending p).
  { rewrite pending_read_next. unfold pending. lia. }
  assert (H2 : _line p <> "" -> pending (read_next p) < pending p).
  { intros Hl. destruct (_line p); [contradiction|]. simpl in H1. lia. }
  exists (_stripLineSep (_line p)), (read_next p).
  split; [reflexivity|]. split; [apply same_vars_read_next|].
  split; [lia|]. split; [|exact H2].
  intros Hu. apply H2. now apply strip_empty_line.
Qed.

Lemma first_is_not_empty (c : ascii) (s : string) :
  Py.first_is c s = true -> s <> "".
Proof. destruct s; simpl; [discriminate|discriminate]. Qed.

Lemma comment_loop_total (fuel : nat) :
  forall u p,
    (Py.first_is "#" u = true -> pending p + 2 <= fuel) -> 1 <= fuel ->
    exists p',
      same_vars p p' /\ pending p' <= pending p /\
      ((exists u',
           comment_loop fuel u p = Ok u' p' /\
           (u' <> "" -> pending p' < pending p \/ u' = u)) \/
       comment_loop fuel u p = Raise UnicodeDecodeError p').
Proof.
  induction fuel as [|fuel IH]; intros u p Hc H1; [lia|]. cbn [comment_loop].
  destruct (Py.first_is "#" u) eqn:E.
  - specialize (Hc eq_refl).
    destruct (unfold_total p) as [(u1 & p1 & -> & Hs1 & Hle1 & Hu1 & _) | ->];
      cbn [bind].
    2:{ exists p. split; [apply same_vars_refl|]. split; [lia|now right]. }
    destruct (IH u1 p1) as (p' & Hs & Hle & Hres); [| lia |].
    + intros E1. apply first_is_not_empty in E1. apply Hu1 in E1. lia.
    + exists p'. split; [eapply same_vars_trans; eassumption|]. split; [lia|].
      destruct Hres as [(u' & -> & Hu) | ->]; [left|now right].
      exists u'. split; [reflexivity|].
      intros Hne. left. destruct (Hu Hne) as [Hlt | ->]; [lia|].
      apply Hu1 in Hne. lia.
  - exists p. split; [apply same_vars_refl|]. split; [lia|]. left.
    exists u. split; [reflexivity|]. auto.
Qed.

Lemma parse_token_total (p : LDIFParser) :
  exists p',
    same_vars p p' /\ pending p' <= pending p /\
    ((exists tok, _parseAttrTypeandValue p = Ok tok p' /\
                  (fst tok <> None -> pending p' < pending p) /\
                  (_line p <> "" -> pending p' < pending p)) \/
     (exists e, _parseAttrTypeandValue p = Raise e p')).
Proof.
  unfold _parseAttrTypeandValue.
  destruct (unfold_total p) as [(u1 & p1 & -> & Hs1 & Hle1 & Hu1 & Hl1) | ->];
    cbn [bind].
  2:{ exists p. split; [apply same_vars_refl|]. split; [lia|].
      right. now exists UnicodeDecodeError. }
  destruct (comment_loop_total (S (S (pending p1))) u1 p1)
    as (p' & Hs & Hle & Hres); [lia|lia|].
  exists p'. split; [eapply same_vars_trans; eassumption|]. split; [lia|].
  destruct Hres as [(u & -> & Hu) | ->]; cbn [bind].
  2:{ right. now exists UnicodeDecodeError. }
  destruct (attr_type_and_value u) as [e|tok] eqn:E; [right; now exists e|].
  left. exists tok. split; [reflexivity|].
  split; [|intros Hl; apply Hl1 in Hl; lia]. intros Ht.
  assert (Hne : u <> "") by (intros ->; cbn in E; injection E as <-; now apply Ht).
  destruct (Hu Hne) as [Hlt | ->]; [lia|]. apply Hu1 in Hne. lia.
Qed.

(** ** Keys of the entries *)

Lemma entry_keys_append (k v : string) (e : Entry) :
  entry_keys (entry_append k v e) = entry_keys e.
Proof.
  unfold entry_keys. induction e as [|[k' vs] e IH]; simpl; auto.
  destruct (String.eqb k' k); simpl; [reflexivity|]. now rewrite IH.
Qed.

Lemma entry_keys_add (k v : string) (e : Entry) :
  entry_keys (entry_add k v e) = entry_keys e \/
  entry_keys (entry_add k v e) = entry_keys e ++ [k].
Proof.
  unfold entry_add. destruct (entry_has k e).
  - left. apply entry_keys_append.
  - right. unfold entry_keys. now rewrite map_app.
Qed.

Lemma record_step_keys_ok (ign : list string) (r r' : record_vars) (t v : string) :
  record_step ign r t v = inr r' ->
  keys_ok ign (snd r) = true -> keys_ok ign (snd r') = true.
Proof.
  destruct r as [[dn ct] e]. unfold record_step. cbn [snd].
  destruct (String.eqb t "dn").
  { destruct dn; [discriminate|]. destruct (negb (is_dn v)); [discriminate|].
    now intros [= <-]. }
  destruct (String.eqb t "changetype").
  { destruct dn; [|discriminate]. destruct ct; [discriminate|].
    destruct (negb (Py.mem v valid_changetype_dict)); [discriminate|].
    now intros [= <-]. }
  destruct (negb (Py.mem (Py.lower t) ign)) eqn:E; intros [= <-]; auto.
  cbn [snd]. unfold keys_ok. intros H.
  destruct (entry_keys_add t v e) as [-> | ->]; auto.
  rewrite forallb_app, H. simpl. now rewrite E.
Qed.

Lemma record_loop_total (fuel : nat) :
  forall r tok p,
    (fst tok <> None -> pending p + 2 <= fuel) -> 1 <= fuel ->
    exists p',
      same_vars p p' /\ pending p' <= pending p /\
      ((exists dn e,
           record_loop fuel r tok p = Ok (dn, e) p' /\
           (keys_ok (_ignored_attr_types p) (snd r) = true ->
            keys_ok (_ignored_attr_types p) e = true)) \/
       (exists err, record_loop fuel r tok p = Raise err p')).
Proof.
  induction fuel as [|fuel IH]; intros r tok p Hc H1; [lia|].
  cbn [record_loop].
  assert (Hend : exists p',
             same_vars p p' /\ pending p' <= pending p /\
             ((exists dn e,
                  (let '(dn, _, entry) := r in Ok (dn, entry) p) = Ok (dn, e) p' /\
                  (keys_ok (_ignored_attr_types p) (snd r) = true ->
                   keys_ok (_ignored_attr_types p) e = true)) \/
              (exists err,
                  (let '(dn, _, entry) := r in Ok (dn, entry) p) = Raise err p'))).
  { exists p. split; [apply same_vars_refl|]. split; [lia|]. left.
    destruct r as [[dn ct] e]. now exists dn, e. }
  destruct tok as [[t|] [v|]]; try exact Hend. clear Hend.
  specialize (Hc ltac:(discriminate)).
  destruct (record_step (_ignored_attr_types p) r t v) as [err|r'] eqn:Es.
  { exists p. split; [apply same_vars_refl|]. split; [lia|]. right. now exists err. }
  destruct (parse_token_total p) as (p1 & Hs1 & Hle1 & [(tok' & -> & Hlt & _)|(e & ->)]);
    cbn [bind].
  - destruct (IH r' tok' p1) as (p' & Hs & Hle & Hres); [|lia|].
    { intros Hn. apply Hlt in Hn. lia. }
    exists p'. split; [eapply same_vars_trans; eassumption|]. split; [lia|].
    destruct Hs1 as (_ & Hign & _).
    destruct Hres as [(dn & e & -> & Hk)|(err & ->)]; [left|right; now exists err].
    exists dn, e. split; [reflexivity|]. intros Hr. rewrite Hign in Hk. apply Hk.
    eapply record_step_keys_ok; eassumption.
  - exists p1. split; [assumption|]. split; [lia|]. right. now exists e.
Qed.

Lemma handled_ok_same_vars (p p' : LDIFParser) :
  same_vars p p' -> handled_ok p = true -> handled_ok p' = true.
Proof. unfold handled_ok. intros (_ & -> & _ & ->). auto. Qed.

Lemma parse_loop_total (fuel : nat) :
  forall p,
    pending p < fuel ->
    exists p',
      final_state (parse_loop fuel p) = Some p' /\
      _ignored_attr_types p' = _ignored_attr_types p /\
      (handled_ok p = true -> handled_ok p' = true).
Proof.
  induction fuel as [|fuel IH]; intros p Hf; [lia|].
  cbn [parse_loop].
  destruct (negb (String.eqb (_line p) "")
            && ((_max_entries p =? 0) || (records_read p <? _max_entries p))) eqn:Ec.
  2:{ exists p. auto. }
  apply andb_prop in Ec as [Hl _]. apply negb_true_iff, String.eqb_neq in Hl.
  destruct (parse_token_total p) as (p1 & Hs1 & _ & [(tok & -> & _ & Hlt)|(e & ->)]);
    cbn [bind].
  2:{ exists p1. split; [reflexivity|]. split; [apply Hs1|].
      now apply handled_ok_same_vars. }
  specialize (Hlt Hl).
  destruct (record_loop_total (S (S (pending p1))) (None, None, []) tok p1)
    as (p2 & Hs2 & Hle2 & [(dn & e & -> & Hk)|(err & ->)]); try lia; cbn [bind].
  2:{ exists p2. split; [reflexivity|].
      split; [destruct Hs1 as (_ & <- & _); apply Hs2|].
      intros H. eapply handled_ok_same_vars; [exact Hs2|].
      eapply handled_ok_same_vars; eassumption. }
  specialize (Hk eq_refl).
  assert (Hign : _ignored_attr_types p2 = _ignored_attr_types p).
  { destruct Hs1 as (_ & <- & _). apply Hs2. }
  assert (Hh : handled_ok p = true -> handled_ok p2 = true).
  { intros H. eapply handled_ok_same_vars; [exact Hs2|].
    eapply handled_ok_same_vars; eassumption. }
  destruct e as [|kv e].
  - destruct (IH p2) as (p' & Hfin & Hi & Hok); [lia|].
    exists p'. split; [assumption|]. split; [congruence|auto].
  - destruct (IH (incr_records_read (handle dn (kv :: e) p2)))
      as (p' & Hfin & Hi & Hok); [unfold pending in *; simpl; lia|].
    exists p'. split; [assumption|]. split; [simpl in Hi; congruence|].
    intros H. apply Hok. unfold handled_ok. cbn [incr_records_read handle
      all_records _ignored_attr_types]. rewrite forallb_app.
    apply Hh in H. unfold handled_ok in H. rewrite H. cbn [forallb snd].
    destruct Hs2 as (_ & Hi2 & _). now rewrite Hi2, Hk.
Qed.

(** [parse] returns or raises on every input: no loop runs for ever. *)
Lemma parse_total (p : LDIFParser) :
  exists p', final_state (parse p) = Some p' /\
             _ignored_attr_types p' = _ignored_attr_types p /\
             (handled_ok p = true -> handled_ok p' = true).
Proof.
  unfold parse.
  destruct (parse_loop_total (S (pending (read_next p))) (read_next p))
    as (p' & Hfin & Hi & Hok); [lia|].
  exists p'. split; [assumption|].
  pose proof (same_vars_read_next p) as Hs.
  split; [destruct Hs as (_ & <- & _); assumption|].
  intros H. apply Hok. eapply handled_ok_same_vars; eassumption.
Qed.

Lemma mem_false_not_in (x : string) (l : list string) :
  Py.mem x l = false -> ~ In x l.
Proof.
  unfold Py.mem. intros H Hin.
  assert (E : existsb (String.eqb x) l = true).
  { apply existsb_exists. exists x. split; [assumption|apply String.eqb_refl]. }
  congruence.
Qed.

(** C7: every run of [parse] returns or raises, and in the entries
    handed to the handler by then no key is, letter case apart, one of
    the attribute types given as ignored. *)
Theorem ignored_types_never_dispatched (input : string) (ignored : list string)
    (max_entries : nat) :
  exists p',
    final_state (parse (LDIFRecordList input ignored max_entries)) = Some p' /\
    forall dn entry k a,
      In (dn, entry) (all_records p') -> In k (entry_keys entry) -> In a ignored ->
      Py.lower k <> Py.lower a.
Proof.
  destruct (parse_total (LDIFRecordList input ignored max_entries))
    as (p' & Hfin & Hi & Hok).
  exists p'. split; [assumption|].
  intros dn entry k a Hin Hk Ha E.
  specialize (Hok eq_refl). unfold handled_ok in Hok.
  rewrite forallb_forall in Hok. specialize (Hok _ Hin). cbn [snd] in Hok.
  unfold keys_ok in Hok. rewrite forallb_forall in Hok. specialize (Hok _ Hk).
  apply negb_true_iff, mem_false_not_in in Hok. apply Hok.
  rewrite Hi. cbn [LDIFRecordList _ignored_attr_types list_dict].
  rewrite E. now apply in_map.
Qed.

Lemma ignored_types_never_dispatched_witness :
  Py.lower "sn" <> Py.lower "CN".
Proof.
  destruct (ignored_types_never_dispatched
              (lines ["dn: cn=a"; "cn: x"; "sn: y"; ""]) ["CN"] 0) as (p' & Hfin & H).
  injection Hfin as <-.
  apply (H (Some "cn=a") [("sn", ["y"])] "sn" "CN"); simpl; auto.
Defined.

(** ** The tokenizer on attribute lines *)

Lemma lstrip_id (v : string) : no_leading_space v = true -> Py.lstrip v = v.
Proof.
  destruct v as [|c v]; simpl; auto. intros H.
  apply negb_true_iff in H. now rewrite H.
Qed.

Lemma first_is_append (c : ascii) (s1 s2 : string) :
  Py.first_is c (s1 ++ s2) =
    match s1 with
    | "" => Py.first_is c s2
    | _ => Py.first_is c s1
    end.
Proof. now destruct s1. Qed.

Lemma line_ok_parts (tv : string * string) :
  line_ok tv = true ->
  Py.index ":" (fst tv) = None /\ no_crlf (fst tv) = true /\
  Py.first_is " " (fst tv) = false /\ Py.first_is "#" (fst tv) = false /\
  no_crlf (snd tv) = true /\ no_leading_space (snd tv) = true /\
  is_7bit (fst tv) = true /\ is_7bit (snd tv) = true.
Proof.
  unfold line_ok, line_type_ok, line_value_ok. intros H.
  apply andb_prop in H as [Ht Hv]. apply andb_prop in Hv as [Hv1 Hv3].
  apply andb_prop in Hv1 as [Hv1 Hv2].
  apply andb_prop in Ht as [Ht H7]. apply andb_prop in Ht as [Ht Hc].
  apply andb_prop in Ht as [Ht Hsp]. apply andb_prop in Ht as [Hcolon Ht].
  apply negb_true_iff in Hc, Hsp.
  repeat split; auto.
  exact (all_chars_index _ ":"%char _ Hcolon eq_refl).
Qed.

Lemma first_is_attr_line (c : ascii) (tv : string * string) (X : string) :
  c <> ":"%char ->
  Py.first_is c (fst tv) = false ->
  Py.first_is c (attr_line tv ++ X) = false.
Proof.
  intros Hc H. unfold attr_line. rewrite !first_is_append.
  destruct (fst tv); [|exact H]. cbn [append Py.first_is].
  now apply Ascii.eqb_neq, not_eq_sym.
Qed.

Lemma token_attr_line (p : LDIFParser) (tv : string * string) (T : string) :
  line_ok tv = true ->
  Py.first_is " " T = false ->
  _parseAttrTypeandValue (at_text p (attr_line tv ++ T)) =
    Ok (Some (fst tv), Some (snd tv)) (at_text p T).
Proof.
  intros Hok HT.
  destruct (line_ok_parts _ Hok) as (Hi & Ht & Hsp & Hc & Hv & Hls & H7t & H7v).
  destruct tv as [t v]. cbn [fst snd] in *.
  set (l := (t ++ ": " ++ v)%string).
  assert (Hl : no_crlf l = true).
  { unfold l, no_crlf in *. rewrite !all_chars_append, Ht, Hv. reflexivity. }
  assert (H7 : is_7bit l = true).
  { unfold l. rewrite !is_7bit_append, H7t, H7v. reflexivity. }
  replace (attr_line (t, v) ++ T)%string with (l ++ line_sep false ++ T)%string.
  2:{ unfold attr_line, l. cbn [fst snd line_sep]. now rewrite !append_assoc. }
  unfold _parseAttrTypeandValue.
  rewrite unfold_line by assumption.
  cbn [bind comment_loop].
  assert (Hcl : Py.first_is "#" l = false).
  { unfold l. rewrite first_is_append. destruct t; [reflexivity|exact Hc]. }
  rewrite Hcl. cbn [bind].
  unfold l. change (": " ++ v)%string with (String ":" (String " " v)).
  rewrite (attr_type_and_value_skip t " "%char v Hi);
    [|discriminate|discriminate].
  now rewrite lstrip_id.
Qed.

Lemma token_blank (p : LDIFParser) (T : string) :
  Py.first_is " " T = false ->
  _parseAttrTypeandValue (at_text p (nl ++ T)) = Ok (None, None) (at_text p T).
Proof.
  intros HT.
  change (nl ++ T)%string with ("" ++ line_sep false ++ T)%string.
  unfold _parseAttrTypeandValue. now rewrite unfold_line.
Qed.

Lemma first_is_attr_lines (c : ascii) (toks : list (string * string)) (T : string) :
  c <> ":"%char ->
  forallb (fun tv => negb (Py.first_is c (fst tv))) toks = true ->
  Py.first_is c T = false ->
  Py.first_is c (attr_lines toks ++ T) = false.
Proof.
  intros Hc Hall HT. destruct toks as [|tv toks]; [exact HT|].
  simpl in Hall. apply andb_prop in Hall as [H _]. apply negb_true_iff in H.
  unfold attr_lines. cbn [map Py.join]. rewrite append_assoc.
  now apply first_is_attr_line.
Qed.

Lemma line_ok_no_space (toks : list (string * string)) :
  forallb line_ok toks = true ->
  forallb (fun tv => negb (Py.first_is " " (fst tv))) toks = true.
Proof.
  induction toks as [|tv toks IH]; simpl; auto. intros H.
  apply andb_prop in H as [H1 H2].
  destruct (line_ok_parts _ H1) as (_ & _ & -> & _). now rewrite IH.
Qed.

Lemma attr_lines_cons (tv : string * string) (toks : list (string * string)) (T : string) :
  (attr_lines (tv :: toks) ++ T)%string = (attr_line tv ++ attr_lines toks ++ T)%string.
Proof. unfold attr_lines. cbn [map Py.join]. now rewrite append_assoc. Qed.

Lemma attr_lines_length (toks : list (string * string)) (T : string) :
  List.length toks <= length (attr_lines toks ++ T).
Proof.
  induction toks as [|tv toks IH]; [simpl; lia|].
  rewrite attr_lines_cons. unfold attr_line.
  rewrite length_append in IH.
  rewrite !append_assoc, !length_append. simpl length.
  cbn [List.length]. lia.
Qed.

(** ** The inner loop on the lines of a record *)

Lemma record_loop_lines (p : LDIFParser) (T : string) :
  Py.first_is " " T = false ->
  forall toks fuel r,
    forallb line_ok toks = true ->
    List.length toks < fuel ->
    match assemble (_ignored_attr_types p) r toks with
    | inr r' =>
        (let* (tok, q) := _parseAttrTypeandValue (at_text p (attr_lines toks ++ T)) in
         record_loop fuel r tok q) =
        (let* (tok, q) := _parseAttrTypeandValue (at_text p T) in
         record_loop (fuel - List.length toks) r' tok q)
    | inl e =>
        exists X,
          (let* (tok, q) := _parseAttrTypeandValue (at_text p (attr_lines toks ++ T)) in
           record_loop fuel r tok q) = Raise e (at_text p X)
    end.
Proof.
  intros HT. induction toks as [|[t v] toks IH]; intros fuel r Hok Hfuel.
  - cbn [assemble attr_lines map Py.join append List.length].
    now rewrite Nat.sub_0_r.
  - destruct fuel as [|fuel]; [simpl in Hfuel; lia|].
    cbn [forallb] in Hok. apply andb_prop in Hok as [Hok1 Hok].
    rewrite attr_lines_cons.
    rewrite token_attr_line; auto.
    2:{ apply first_is_attr_lines; auto; [discriminate|]. now apply line_ok_no_space. }
    cbn [bind record_loop fst snd assemble].
    change (_ignored_attr_types (at_text p (attr_lines toks ++ T)))
      with (_ignored_attr_types p).
    destruct (record_step (_ignored_attr_types p) r t v) as [e|r'].
    + now exists (attr_lines toks ++ T)%string.
    + cbn [List.length Nat.sub]. apply IH; auto. simpl in Hfuel. lia.
Qed.

Lemma record_loop_S (fuel : nat) (r : record_vars) (t v : string) (p : LDIFParser) :
  record_loop (S fuel) r (Some t, Some v) p =
    match record_step (_ignored_attr_types p) r t v with
    | inl e => Raise e p
    | inr r' =>
        let* (tok, q) := _parseAttrTypeandValue p in record_loop fuel r' tok q
    end.
Proof. reflexivity. Qed.

Lemma record_body_ok (p : LDIFParser) (T : string) (toks : list (string * string))
    (r0 : record_vars) (dn ct : option string) (e : Entry) :
  Py.first_is " " T = false ->
  forallb line_ok toks = true ->
  assemble (_ignored_attr_types p) r0 toks = inr (dn, ct, e) ->
  (let* (tok, q) := _parseAttrTypeandValue (at_text p (attr_lines toks ++ nl ++ T)) in
   record_loop (S (S (pending q))) r0 tok q) = Ok (dn, e) (at_text p T).
Proof.
  intros HT Hok Ha.
  assert (HnT : Py.first_is " " (nl ++ T) = false) by reflexivity.
  destruct toks as [|[t v] toks].
  - cbn [attr_lines map Py.join append]. fold (nl ++ T)%string.
    rewrite token_blank by assumption. cbn [bind record_loop].
    cbn [assemble] in Ha. now injection Ha as ->.
  - cbn [forallb] in Hok. apply andb_prop in Hok as [Hok1 Hok].
    rewrite attr_lines_cons, token_attr_line; auto.
    2:{ apply first_is_attr_lines; auto; [discriminate|]. now apply line_ok_no_space. }
    cbn [bind fst snd]. rewrite record_loop_S. cbn [assemble] in Ha.
    change (_ignored_attr_types (at_text p (attr_lines toks ++ nl ++ T)))
      with (_ignored_attr_types p).
    destruct (record_step (_ignored_attr_types p) r0 t v) as [err|r']; [discriminate|].
    pose proof (record_loop_lines p (nl ++ T) HnT toks
                  (S (pending (at_text p (attr_lines toks ++ nl ++ T)))) r' Hok) as H.
    rewrite Ha in H. rewrite H.
    2:{ rewrite pending_at_text. pose proof (attr_lines_length toks (nl ++ T)). lia. }
    rewrite token_blank by assumption. cbn [bind].
    rewrite pending_at_text.
    pose proof (attr_lines_length toks (nl ++ T)) as Hlen.
    destruct (S (length (attr_lines toks ++ nl ++ T)) - List.length toks) eqn:E; [lia|].
    reflexivity.
Qed.

Lemma record_body_raise (p : LDIFParser) (T : string) (toks : list (string * string))
    (r0 : record_vars) (err : error) :
  Py.first_is " " T = false ->
  forallb line_ok toks = true ->
  assemble (_ignored_attr_types p) r0 toks = inl err ->
  exists X,
    (let* (tok, q) := _parseAttrTypeandValue (at_text p (attr_lines toks ++ T)) in
     record_loop (S (S (pending q))) r0 tok q) = Raise err (at_text p X).
Proof.
  intros HT Hok Ha.
  destruct toks as [|[t v] toks]; [discriminate|].
  cbn [forallb] in Hok. apply andb_prop in Hok as [Hok1 Hok].
  rewrite attr_lines_cons, token_attr_line; auto.
  2:{ apply first_is_attr_lines; auto; [discriminate|]. now apply line_ok_no_space. }
  cbn [bind fst snd]. rewrite record_loop_S. cbn [assemble] in Ha.
  change (_ignored_attr_types (at_text p (attr_lines toks ++ T)))
    with (_ignored_attr_types p).
  destruct (record_step (_ignored_attr_types p) r0 t v) as [err'|r'].
  - injection Ha as ->. now exists (attr_lines toks ++ T)%string.
  - pose proof (record_loop_lines p T HT toks
                  (S (pending (at_text p (attr_lines toks ++ T)))) r' Hok) as H.
    rewrite Ha in H. apply H.
    rewrite pending_at_text. pose proof (attr_lines_length toks T). lia.
Qed.

(** ** Records that break a rule *)

Lemma assemble_app (ign : list string) (pre post : list (string * string)) :
  forall r,
    assemble ign r (pre ++ post) =
      match assemble ign r pre with
      | inl e => inl e
      | inr r' => assemble ign r' post
      end.
Proof.
  induction pre as [|[t v] pre IH]; intros r; cbn [assemble app]; auto.
  destruct (record_step ign r t v); auto.
Qed.

Lemma record_step_seen (ign : list string) (dn ct dn' ct' : option string)
    (e e' : Entry) (t v : string) :
  record_step ign (dn, ct, e) t v = inr (dn', ct', e') ->
  (dn' <> None <-> dn <> None \/ t = "dn") /\
  (ct' <> None <-> ct <> None \/ t = "changetype").
Proof.
  unfold record_step.
  destruct (String.eqb_spec t "dn") as [->|Hdn].
  { destruct dn; [discriminate|]. destruct (negb (is_dn v)); [discriminate|].
    intros [= <- <- <-]. intuition (try discriminate; try congruence). }
  destruct (String.eqb_spec t "changetype") as [->|Hct].
  { destruct dn; [|discriminate]. destruct ct; [discriminate|].
    destruct (negb (Py.mem v valid_changetype_dict)); [discriminate|].
    intros [= <- <- <-]. intuition (try discriminate; try congruence). }
  destruct (negb (Py.mem (Py.lower t) ign)); intros [= <- <- <-];
    intuition (try discriminate; try congruence).
Qed.

Lemma assemble_seen (ign : list string) (pre : list (string * string)) :
  forall dn ct e dn' ct' e',
    assemble ign (dn, ct, e) pre = inr (dn', ct', e') ->
    (dn' <> None <-> dn <> None \/ In "dn" (map fst pre)) /\
    (ct' <> None <-> ct <> None \/ In "changetype" (map fst pre)).
Proof.
  induction pre as [|[t v] pre IH]; intros dn ct e dn' ct' e' H.
  - cbn in H. injection H as <- <- <-. simpl. tauto.
  - cbn [assemble] in H.
    destruct (record_step ign (dn, ct, e) t v) as [err|[[dn1 ct1] e1]] eqn:Es;
      [discriminate|].
    apply record_step_seen in Es as [Hd Hc].
    apply IH in H as [Hd' Hc']. cbn [map fst In].
    split.
    + split.
      * intros H. apply Hd' in H as [H|H]; [apply Hd in H as [H|H]|]; auto.
      * intros [H|[H|H]]; apply Hd'; [left; apply Hd; auto|left; apply Hd; auto|auto].
    + split.
      * intros H. apply Hc' in H as [H|H]; [apply Hc in H as [H|H]|]; auto.
      * intros [H|[H|H]]; apply Hc'; [left; apply Hc; auto|left; apply Hc; auto|auto].
Qed.

Lemma mem_in (x : string) (l : list string) : Py.mem x l = true -> In x l.
Proof.
  unfold Py.mem. intros H. apply existsb_exists in H as (y & Hy & E).
  apply String.eqb_eq in E. now subst.
Qed.

(** A record that breaks a rule is stopped by [record_step]. *)
Lemma violation_assemble (ign : list string) (toks : list (string * string)) :
  violation toks -> exists err, assemble ign (None, None, []) toks = inl err.
Proof.
  assert (Hgen : forall pre t v post,
             (forall dn ct e,
                 assemble ign (None, None, []) pre = inr (dn, ct, e) ->
                 exists err, record_step ign (dn, ct, e) t v = inl err) ->
             exists err, assemble ign (None, None, []) (pre ++ (t, v) :: post) = inl err).
  { intros pre t v post H. rewrite assemble_app.
    destruct (assemble ign (None, None, []) pre) as [err|[[dn ct] e]] eqn:Ea;
      [now exists err|].
    destruct (H dn ct e eq_refl) as (err & Hs). exists err.
    cbn [assemble]. now rewrite Hs. }
  intros [pre v post H|pre v post H|pre v post H|pre v post H|pre v post H];
    apply Hgen; intros dn ct e Ha; apply assemble_seen in Ha as [Hd Hc];
    unfold record_step; change (String.eqb "changetype" "dn") with false;
    rewrite String.eqb_refl; cbv iota.
  - destruct dn; [now eexists|]. exfalso. apply (proj2 Hd); auto.
  - destruct dn; [now eexists|]. rewrite H. now eexists.
  - destruct dn; [|now eexists]. exfalso. apply H.
    destruct (proj1 Hd) as [Hn|Hn]; [discriminate|contradiction|assumption].
  - destruct dn; [|now eexists]. destruct ct; [now eexists|].
    exfalso. apply (proj2 Hc); auto.
  - destruct dn; [|now eexists]. destruct ct; [now eexists|].
    destruct (Py.mem v valid_changetype_dict) eqn:Em; [|now eexists].
    exfalso. apply H. now apply mem_in.
Qed.

Lemma read_next_eq (p : LDIFParser) : read_next p = at_text p (_input_file p).
Proof. unfold read_next, at_text. now destruct (readline (_input_file p)). Qed.

Lemma at_text_line_nonempty (p : LDIFParser) (X : string) :
  1 <= length X -> String.eqb (_line (at_text p X)) "" = false.
Proof.
  intros H. apply String.eqb_neq. intros E. apply readline_empty in E.
  subst. simpl in H. lia.
Qed.

(** One turn of the outer loop: the inner loop, then the handler. *)
Lemma parse_loop_S (fuel : nat) (p : LDIFParser) :
  may_start_record p = true ->
  parse_loop (S fuel) p =
    bind (let* (tok, q) := _parseAttrTypeandValue p in
          record_loop (S (S (pending q))) (None, None, []) tok q)
      (fun r p1 =>
         let (dn, entry) := r in
         match entry with
         | [] => parse_loop fuel p1
         | _ :: _ => parse_loop fuel (incr_records_read (handle dn entry p1))
         end).
Proof.
  intros H. cbn [parse_loop]. unfold may_start_record in H. rewrite H.
  destruct (_parseAttrTypeandValue p); reflexivity.
Qed.

Lemma may_start_record_at_text (p : LDIFParser) (X : string) :
  1 <= length X ->
  _max_entries p = 0 \/ records_read p < _max_entries p ->
  may_start_record (at_text p X) = true.
Proof.
  intros HX Hcap. unfold may_start_record.
  rewrite at_text_line_nonempty by assumption.
  change (_max_entries (at_text p X)) with (_max_entries p).
  change (records_read (at_text p X)) with (records_read p).
  destruct Hcap as [->|Hlt]; [reflexivity|].
  apply Nat.ltb_lt in Hlt. now rewrite Hlt, orb_true_r.
Qed.

(** ** Well-formed records *)

Lemma attr_lines_app (l1 l2 : list (string * string)) :
  attr_lines (l1 ++ l2) = (attr_lines l1 ++ attr_lines l2)%string.
Proof. unfold attr_lines. now rewrite map_app, join_app. Qed.

Lemma record_text_lines (r : ldif_record) (T : string) :
  (record_text r ++ T)%string = (attr_lines (record_lines r) ++ nl ++ T)%string.
Proof.
  unfold record_text, record_lines, dn_line. destruct (r_dn r) as [d|].
  - change (("dn", d) :: r_attrs r) with ([("dn", d)] ++ r_attrs r).
    rewrite attr_lines_app. unfold attr_lines at 2. cbn [map Py.join].
    now rewrite append_nil_r, !append_assoc.
  - cbn [append]. now rewrite !append_assoc.
Qed.

Lemma attr_ok_line_ok (l : list (string * string)) :
  forallb attr_ok l = true -> forallb line_ok l = true.
Proof.
  induction l as [|tv l IH]; simpl; auto. intros H.
  apply andb_prop in H as [H1 H2]. rewrite (IH H2), andb_true_r.
  unfold attr_ok in H1.
  do 2 (apply andb_prop in H1 as [H1 _]). exact H1.
Qed.

Lemma assemble_attrs (ignored : list string) (attrs : list (string * string)) :
  forallb attr_ok attrs = true ->
  forall dn ct e,
    assemble (map Py.lower ignored) (dn, ct, e) attrs =
      inr (dn, ct,
           fold_left (fun e tv => entry_add (fst tv) (snd tv) e) (kept ignored attrs) e).
Proof.
  induction attrs as [|[t v] attrs IH]; intros H dn ct e; [reflexivity|].
  cbn [forallb] in H. apply andb_prop in H as [H1 H2].
  unfold attr_ok in H1. cbn [fst snd] in H1.
  apply andb_prop in H1 as [H1 Hct]. apply andb_prop in H1 as [_ Hdn].
  cbn [assemble kept filter fst snd]. unfold record_step.
  apply negb_true_iff in Hdn, Hct. rewrite Hdn, Hct.
  destruct (negb (Py.mem (Py.lower t) (map Py.lower ignored)));
    cbn [fold_left fst snd]; now apply IH.
Qed.

Lemma record_ok_lines (ignored : list string) (r : ldif_record) :
  record_ok r = true ->
  forallb line_ok (record_lines r) = true /\
  assemble (map Py.lower ignored) (None, None, []) (record_lines r) =
    inr (r_dn r, None, entry_of (kept ignored (r_attrs r))).
Proof.
  unfold record_ok, record_lines, dn_ok, entry_of. intros H.
  apply andb_prop in H as [Hd Ha].
  pose proof (attr_ok_line_ok _ Ha) as Hl.
  destruct (r_dn r) as [d|].
  - apply andb_prop in Hd as [Hd Hv]. split.
    + cbn [forallb]. rewrite Hl, andb_true_r.
      unfold line_ok. cbn [fst snd]. now rewrite Hv.
    + cbn [assemble]. unfold record_step. cbn [String.eqb Ascii.eqb Bool.eqb andb].
      rewrite Hd. cbn [negb]. now apply assemble_attrs.
  - split; [assumption|]. now apply assemble_attrs.
Qed.

Lemma entry_add_not_nil (t v : string) (e : Entry) : entry_add t v e <> [].
Proof.
  unfold entry_add. destruct (entry_has t e) eqn:E.
  - destruct e as [|[k vs] e]; [discriminate|]. simpl.
    now destruct (String.eqb k t).
  - now destruct e.
Qed.

Lemma fold_entry_add_not_nil (attrs : list (string * string)) :
  forall e, e <> [] ->
            fold_left (fun e tv => entry_add (fst tv) (snd tv) e) attrs e <> [].
Proof.
  induction attrs as [|tv attrs IH]; intros e He; simpl; auto.
  apply IH, entry_add_not_nil.
Qed.

Lemma entry_of_has_entry (ignored : list string) (r : ldif_record) :
  match entry_of (kept ignored (r_attrs r)) with
  | [] => has_entry ignored r = false
  | _ :: _ => has_entry ignored r = true
  end.
Proof.
  unfold has_entry, entry_of.
  destruct (kept ignored (r_attrs r)) as [|tv attrs]; [reflexivity|].
  cbn [fold_left].
  pose proof (fold_entry_add_not_nil attrs _ (entry_add_not_nil (fst tv) (snd tv) [])) as H.
  now destruct (fold_left _ attrs _).
Qed.

Lemma first_is_record_text (r : ldif_record) (T : string) :
  record_ok r = true ->
  Py.first_is " " (record_text r ++ T) = false.
Proof.
  intros H. rewrite record_text_lines.
  apply first_is_attr_lines; [discriminate| |reflexivity].
  apply line_ok_no_space. now apply (record_ok_lines []).
Qed.

Lemma first_is_ldif_text (rs : list ldif_record) :
  forallb record_ok rs = true ->
  Py.first_is " " (ldif_text rs) = false.
Proof.
  destruct rs as [|r rs]; [reflexivity|]. cbn [forallb]. intros H.
  apply andb_prop in H as [H _]. unfold ldif_text. cbn [map Py.join].
  now apply first_is_record_text.
Qed.

(** The outer loop on well-formed records: what [accepted] says is
    handed over, in the order of the input. *)
Lemma parse_loop_records (ignored : list string) (rs : list ldif_record) :
  forallb record_ok rs = true ->
  forall fuel p,
    _ignored_attr_types p = map Py.lower ignored ->
    List.length rs < fuel ->
    exists p',
      parse_loop fuel (at_text p (ldif_text rs)) = Ok tt p' /\
      all_records p' =
        all_records p ++
        map (dispatched ignored)
          (accepted ignored (_max_entries p) (records_read p) rs) /\
      records_read p' =
        records_read p +
        List.length (accepted ignored (_max_entries p) (records_read p) rs).
Proof.
  induction rs as [|r rs IH]; intros Hok fuel p Hign Hfuel.
  - destruct fuel as [|fuel]; [simpl in Hfuel; lia|].
    exists (at_text p ""). cbn. now rewrite app_nil_r, Nat.add_0_r.
  - destruct fuel as [|fuel]; [simpl in Hfuel; lia|].
    cbn [forallb] in Hok. apply andb_prop in Hok as [Hr Hrs].
    cbn [accepted]. unfold ldif_text. cbn [map Py.join]. fold (ldif_text rs).
    destruct ((_max_entries p =? 0) || (records_read p <? _max_entries p)) eqn:Ecap.
    2:{ exists (at_text p (record_text r ++ ldif_text rs)).
        cbn [parse_loop].
        change (_max_entries (at_text p (record_text r ++ ldif_text rs)))
          with (_max_entries p).
        change (records_read (at_text p (record_text r ++ ldif_text rs)))
          with (records_read p).
        rewrite Ecap, andb_false_r. cbn. now rewrite app_nil_r, Nat.add_0_r. }
    rewrite parse_loop_S.
    2:{ apply may_start_record_at_text.
        - rewrite length_append. unfold record_text.
          rewrite !length_append. simpl length. lia.
        - apply orb_prop in Ecap as [E|E]; [left; now apply Nat.eqb_eq|
                                            right; now apply Nat.ltb_lt]. }
    destruct (record_ok_lines ignored _ Hr) as [Hl Ha]. rewrite <- Hign in Ha.
    rewrite record_text_lines.
    rewrite (record_body_ok p (ldif_text rs) (record_lines r) (None, None, [])
               (r_dn r) None (entry_of (kept ignored (r_attrs r))));
      [|now apply first_is_ldif_text|assumption|assumption].
    cbn [bind]. pose proof (entry_of_has_entry ignored r) as He.
    destruct (entry_of (kept ignored (r_attrs r))) as [|kv e] eqn:Ee; rewrite He.
    + apply IH; auto. simpl in Hfuel. lia.
    + destruct (IH Hrs fuel (incr_records_read (handle (r_dn r) (kv :: e) p)))
        as (p' & Hp & Hall & Hrr); [exact Hign|simpl in Hfuel; lia|].
      exists p'. split; [exact Hp|].
      cbn [incr_records_read handle all_records records_read _max_entries] in Hall, Hrr.
      cbn [map List.length]. unfold dispatched at 1. rewrite Ee.
      rewrite Hall, Hrr, <- app_assoc. split; [reflexivity|lia].
Qed.

Lemma ldif_text_length (rs : list ldif_record) :
  List.length rs <= length (ldif_text rs).
Proof.
  induction rs as [|r rs IH]; [simpl; lia|].
  unfold ldif_text in *. cbn [map Py.join List.length].
  rewrite length_append. unfold record_text at 1.
  rewrite !length_append. simpl length. lia.
Qed.

Lemma parse_records (ignored : list string) (rs : list ldif_record) (max_entries : nat) :
  forallb record_ok rs = true ->
  exists p',
    parse (LDIFRecordList (ldif_text rs) ignored max_entries) = Ok tt p' /\
    all_records p' = map (dispatched ignored) (accepted ignored max_entries 0 rs) /\
    records_read p' = List.length (accepted ignored max_entries 0 rs).
Proof.
  intros Hok. unfold parse. rewrite read_next_eq.
  cbn [LDIFRecordList _input_file].
  apply (parse_loop_records ignored rs Hok); [reflexivity|].
  rewrite pending_at_text. pose proof (ldif_text_length rs). lia.
Qed.

Lemma accepted_unlimited (ignored : list string) (rs : list ldif_record) :
  forall n, accepted ignored 0 n rs = filter (has_entry ignored) rs.
Proof.
  induction rs as [|r rs IH]; intros n; [reflexivity|].
  cbn [accepted filter Nat.eqb orb]. now rewrite !IH.
Qed.

(** ** Whole inputs *)



(** * The rest of the module *)

(** ** [needs_base64] *)





















(** ** [_stripLineSep] *)

Lemma drop_nl_not_crnl_gen (l : string) :
  ends_with CR l = false -> forall n, Py.drop n (l ++ nl) <> crnl.
Proof.
  induction l as [|c l IH]; intros H n.
  - destruct n as [|[|n]]; discriminate.
  - destruct n as [|n]; cbn [append Py.drop].
    + intros E. unfold crnl, nl in E. injection E as -> E.
      destruct l as [|d l]; [cbn in H; discriminate|].
      injection E as _ E. destruct l; discriminate.
    + apply IH. destruct l as [|d l]; [reflexivity|exact H].
Qed.

Lemma ends_with_drop (c : ascii) (s : string) :
  forall n, Py.drop n s <> "" -> ends_with c (Py.drop n s) = ends_with c s.
Proof.
  induction s as [|d s IH]; intros n H.
  - now destruct n.
  - destruct n as [|n]; [reflexivity|]. cbn [Py.drop] in *.
    rewrite (IH n H). destruct s as [|e s]; [|reflexivity].
    destruct n; now contradiction H.
Qed.

(** X3: [_stripLineSep] takes one line separator off the end and
    nothing else: a final "\r\n" goes, else a final "\n" goes, and a
    string that does not end with a newline comes back as it is. *)
Theorem stripLineSep_spec (l : string) :
  _stripLineSep (l ++ crnl) = l /\
  (ends_with CR l = false -> _stripLineSep (l ++ nl) = l) /\
  (ends_with LF l = false -> _stripLineSep l = l).
Proof.
  split; [apply strip_crnl|]. split.
  - intros H. unfold _stripLineSep, Py.last_n, Py.but_last_n.
    destruct (String.eqb_spec (Py.drop (length (l ++ nl) - 2) (l ++ nl)) crnl) as [E|_].
    + now apply drop_nl_not_crnl_gen in E.
    + rewrite length_append. simpl length.
      replace (length l + 1 - 1) with (length l) by lia.
      now rewrite drop_length_append, take_length_append.
  - intros H. unfold _stripLineSep, Py.last_n.
    destruct (String.eqb_spec (Py.drop (length l - 2) l) crnl) as [E|_].
    + rewrite <- (ends_with_drop LF l (length l - 2)) in H by (rewrite E; discriminate).
      rewrite E in H. discriminate.
    + destruct (String.eqb_spec (Py.drop (length l - 1) l) nl) as [E|_]; [|reflexivity].
      rewrite <- (ends_with_drop LF l (length l - 1)) in H by (rewrite E; discriminate).
      rewrite E in H. discriminate.
Qed.

Lemma stripLineSep_spec_witness :
  _stripLineSep ("cn: a" ++ nl ++ nl) = ("cn: a" ++ nl)%string /\
  _stripLineSep "cn: a " = "cn: a ".
Proof.
  split.
  - apply (proj1 (proj2 (stripLineSep_spec ("cn: a" ++ nl)))). reflexivity.
  - apply (proj2 (proj2 (stripLineSep_spec "cn: a "))). reflexivity.
Defined.

(** ** The shape of a pair *)

Lemma attr_type_and_value_no_colon (u : string) :
  Py.index ":" u = None -> attr_type_and_value u = inr (None, None).
Proof.
  intros H. unfold attr_type_and_value. rewrite H.
  now destruct (String.eqb u "" || String.eqb u nl || String.eqb u crnl).
Qed.

Lemma value_spec_cases (r : string) :
  (String.eqb (Py.take 2 (String ":" r)) "::" = Py.first_is ":" r) /\
  (String.eqb (Py.take 2 (String ":" r)) ":<" = Py.first_is "<" r).
Proof.
  destruct r as [|c r]; [split; reflexivity|].
  cbn [Py.take String.eqb Py.first_is]. rewrite Ascii.eqb_refl, ?take_0.
  destruct (Ascii.eqb c ":"), (Ascii.eqb c "<"); split; reflexivity.
Qed.

(** X4: the tokenizer gives [(None, None)] exactly for a logical line
    without a colon.  Otherwise the type is the text before the first
    colon; the value is missing exactly when [<] follows that colon;
    and the only exception is that of the base64 decoder, on what
    follows "::". *)
Theorem token_shape (u : string) :
  (attr_type_and_value u = inr (None, None) <-> Py.index ":" u = None) /\
  (forall t ov,
      attr_type_and_value u = inr (Some t, ov) ->
      Py.index ":" t = None /\
      exists rest, u = (t ++ String ":" rest)%string /\
                   (ov = None <-> Py.first_is "<" rest = true)) /\
  (forall e,
      attr_type_and_value u = inl e ->
      e = DecodestringError /\
      exists t rest, u = (t ++ "::" ++ rest)%string /\ Py.index ":" t = None /\
                     Base64.decodestring rest = None).
Proof.
  destruct (Py.index ":" u) as [i|] eqn:Ei.
  - destruct (index_Some_split _ _ _ Ei) as (t & r & -> & <- & Ht).
    rewrite attr_type_and_value_colon by exact Ht.
    destruct (value_spec_cases r) as [-> ->].
    destruct r as [|c r]; cbn [Py.first_is Py.drop].
    + split; [split; discriminate|]. split; [|discriminate].
      intros t' ov [= <- <-]. split; [assumption|]. exists "".
      split; [reflexivity|]. split; discriminate.
    + destruct (Ascii.eqb_spec c ":") as [->|Hc].
      * change (Ascii.eqb ":" "<") with false.
        destruct (Base64.decodestring r) as [v|] eqn:Ed.
        -- split; [split; discriminate|]. split; [|discriminate].
           intros t' ov [= <- <-]. split; [assumption|]. exists (String ":" r).
           split; [reflexivity|]. split; discriminate.
        -- split; [split; discriminate|]. split; [discriminate|].
           intros e [= <-]. split; [reflexivity|]. now exists t, r.
      * destruct (Ascii.eqb c "<") eqn:El.
        -- split; [split; discriminate|]. split; [|discriminate].
           intros t' ov [= <- <-]. split; [assumption|]. exists (String c r).
           split; [reflexivity|]. cbn [Py.first_is]. now rewrite El.
        -- split; [split; discriminate|]. split; [|discriminate].
           intros t' ov [= <- <-]. split; [assumption|]. exists (String c r).
           split; [reflexivity|]. cbn [Py.first_is]. rewrite El.
           split; discriminate.
  - rewrite (attr_type_and_value_no_colon u Ei).
    split; [now split|]. split; discriminate.
Qed.

Lemma token_shape_witness :
  Py.index ":" "cn;lang-en" = None /\
  exists rest, "cn;lang-en: Bob" = ("cn;lang-en" ++ String ":" rest)%string /\
               (Some "Bob" = None <-> Py.first_is "<" rest = true).
Proof.
  apply (proj1 (proj2 (token_shape "cn;lang-en: Bob")) "cn;lang-en" (Some "Bob")).
  reflexivity.
Defined.

(** ** What an entry holds *)

Lemma entry_has_get (t : string) (e : Entry) :
  entry_has t e = match entry_get t e with Some _ => true | None => false end.
Proof.
  unfold entry_get. induction e as [|[k vs] e IH]; [reflexivity|].
  cbn [entry_has dict_get]. now destruct (String.eqb k t).
Qed.

Lemma entry_get_append_same (t v : string) (e : Entry) :
  entry_get t (entry_append t v e) =
    match entry_get t e with
    | Some vs => Some (vs ++ [v])
    | None => None
    end.
Proof.
  unfold entry_get. induction e as [|[k vs] e IH]; [reflexivity|].
  cbn [entry_append dict_get]. destruct (String.eqb k t) eqn:E; cbn [dict_get];
    rewrite E; auto.
Qed.

Lemma entry_get_append_other (t t' v : string) (e : Entry) :
  t' <> t -> entry_get t' (entry_append t v e) = entry_get t' e.
Proof.
  intros Hne. unfold entry_get. induction e as [|[k vs] e IH]; [reflexivity|].
  cbn [entry_append dict_get]. destruct (String.eqb_spec k t) as [->|Hk];
    cbn [dict_get].
  - apply String.eqb_neq in Hne. rewrite String.eqb_sym in Hne. now rewrite Hne.
  - destruct (String.eqb k t'); auto.
Qed.

Lemma entry_get_app_miss (t : string) (e e' : Entry) :
  entry_get t e = None -> entry_get t (e ++ e') = entry_get t e'.
Proof.
  unfold entry_get. induction e as [|[k vs] e IH]; [reflexivity|].
  cbn [app dict_get]. destruct (String.eqb k t); [discriminate|exact IH].
Qed.

Lemma entry_get_app_hit (t : string) (e e' : Entry) (vs : list string) :
  entry_get t e = Some vs -> entry_get t (e ++ e') = Some vs.
Proof.
  unfold entry_get. induction e as [|[k ws] e IH]; [discriminate|].
  cbn [app dict_get]. destruct (String.eqb k t); [auto|exact IH].
Qed.

Lemma entry_get_add_same (t v : string) (e : Entry) :
  entry_get t (entry_add t v e) =
    Some (match entry_get t e with Some vs => vs ++ [v] | None => [v] end).
Proof.
  unfold entry_add. rewrite entry_has_get.
  destruct (entry_get t e) as [vs|] eqn:E.
  - now rewrite entry_get_append_same, E.
  - rewrite (entry_get_app_miss _ _ _ E). unfold entry_get. cbn.
    now rewrite String.eqb_refl.
Qed.

Lemma entry_get_add_other (t t' v : string) (e : Entry) :
  t' <> t -> entry_get t' (entry_add t v e) = entry_get t' e.
Proof.
  intros Hne. unfold entry_add. destruct (entry_has t e).
  - now apply entry_get_append_other.
  - destruct (entry_get t' e) as [vs|] eqn:E.
    + now apply entry_get_app_hit.
    + rewrite (entry_get_app_miss _ _ _ E). unfold entry_get. cbn.
      apply String.eqb_neq in Hne. rewrite String.eqb_sym in Hne. now rewrite Hne.
Qed.

(** The entry after one turn of the inner loop. *)
Lemma record_step_entry (ign : list string) (r r' : record_vars) (t v : string) :
  record_step ign r t v = inr r' ->
  snd r' =
    if String.eqb t "dn" || String.eqb t "changetype" || Py.mem (Py.lower t) ign
    then snd r else entry_add t v (snd r).
Proof.
  destruct r as [[dn ct] e]. unfold record_step. cbn [snd].
  destruct (String.eqb t "dn").
  { destruct dn; [discriminate|]. destruct (negb (is_dn v)); [discriminate|].
    now intros [= <-]. }
  destruct (String.eqb t "changetype").
  { destruct dn; [|discriminate]. destruct ct; [discriminate|].
    destruct (negb (Py.mem v valid_changetype_dict)); [discriminate|].
    now intros [= <-]. }
  cbn [orb]. destruct (Py.mem (Py.lower t) ign); cbn [negb]; now intros [= <-].
Qed.

Lemma assemble_entry (ign : list string) (t : string) (toks : list (string * string)) :
  forall r r',
    assemble ign r toks = inr r' ->
    entry_get t (snd r') =
      match entry_get t (snd r),
            (if String.eqb t "dn" || String.eqb t "changetype"
                || Py.mem (Py.lower t) ign
             then [] else values_of t toks) with
      | None, [] => None
      | None, v :: vs => Some (v :: vs)
      | Some ws, vs => Some (ws ++ vs)
      end.
Proof.
  induction toks as [|[t' v] toks IH]; intros r r' H.
  - cbn in H. injection H as <-.
    destruct (entry_get t (snd r)) as [ws|];
      destruct (String.eqb t "dn" || String.eqb t "changetype"
                || Py.mem (Py.lower t) ign);
      cbn [values_of filter map]; now rewrite ?app_nil_r.
  - cbn [assemble] in H.
    destruct (record_step ign r t' v) as [err|r1] eqn:Es; [discriminate|].
    rewrite (IH _ _ H). apply record_step_entry in Es. rewrite Es.
    unfold values_of. cbn [filter fst].
    destruct (String.eqb_spec t' t) as [->|Hne].
    + destruct (String.eqb t "dn" || String.eqb t "changetype"
                || Py.mem (Py.lower t) ign); [reflexivity|].
      rewrite entry_get_add_same. cbn [map snd].
      destruct (entry_get t (snd r)) as [ws|]; [now rewrite <- app_assoc|reflexivity].
    + assert (Hsame : entry_get t
                        (if String.eqb t' "dn" || String.eqb t' "changetype"
                            || Py.mem (Py.lower t') ign
                         then snd r else entry_add t' v (snd r)) =
                      entry_get t (snd r)).
      { destruct (String.eqb t' "dn" || String.eqb t' "changetype"
                  || Py.mem (Py.lower t') ign); [reflexivity|].
        apply entry_get_add_other. now apply not_eq_sym. }
      now rewrite Hsame.
Qed.

Lemma assemble_collects_values (ign : list string) (toks : list (string * string))
    (dn ct : option string) (e : Entry) (t : string) :
  assemble ign (None, None, []) toks = inr (dn, ct, e) ->
  entry_get t e =
    if String.eqb t "dn" || String.eqb t "changetype" || Py.mem (Py.lower t) ign
    then None
    else match values_of t toks with
         | [] => None
         | v :: vs => Some (v :: vs)
         end.
Proof.
  intros H. pose proof (assemble_entry ign t toks _ _ H) as E.
  cbn [snd] in E. rewrite E. unfold entry_get at 1. cbn [dict_get].
  now destruct (String.eqb t "dn" || String.eqb t "changetype"
                || Py.mem (Py.lower t) ign).
Qed.

(** ** The tables of modification operations *)

(** X6: [MOD_OP_INTEGER] and [MOD_OP_STR] are inverse to each other:
    a name has the number [n] in the first exactly when [n] has that
    name in the second. *)
Theorem mod_op_tables_inverse (name : string) (n : nat) :
  dict_get String.eqb name MOD_OP_INTEGER = Some n <->
  dict_get Nat.eqb n MOD_OP_STR = Some name.
Proof.
  unfold MOD_OP_INTEGER, MOD_OP_STR. split.
  - cbn [dict_get].
    destruct (String.eqb_spec "add" name) as [<-|_]; [now intros [= <-]|].
    destruct (String.eqb_spec "delete" name) as [<-|_]; [now intros [= <-]|].
    destruct (String.eqb_spec "replace" name) as [<-|_]; [now intros [= <-]|].
    discriminate.
  - destruct n as [|[|[|n]]]; cbn; intros [= <-]; reflexivity.
Qed.

Lemma mod_op_tables_inverse_witness :
  dict_get Nat.eqb 2 MOD_OP_STR = Some "replace".
Proof. apply (proj1 (mod_op_tables_inverse "replace" 2)). reflexivity. Defined.

(** ** The shape of a DN *)







(** ** What holds on every input *)

Lemma line_buffer_ok_read_next (p : LDIFParser) : line_buffer_ok (read_next p).
Proof.
  unfold line_buffer_ok, read_next.
  destruct (readline (_input_file p)) as [l f] eqn:E. cbn.
  intros ->. pose proof (readline_empty (_input_file p)) as H.
  rewrite E in H. specialize (H eq_refl). rewrite H in E. cbn in E. congruence.
Qed.

Lemma unfold_buffer (p p' : LDIFParser) :
  line_buffer_ok p ->
  final_state (_unfoldLDIFLine p) = Some p' -> line_buffer_ok p'.
Proof.
  intros Hp. rewrite unfold_eq.
  destruct (decode_utf8 (_line p)); intros [= <-];
    [apply line_buffer_ok_read_next|exact Hp].
Qed.

Lemma comment_loop_buffer (fuel : nat) :
  forall u p p',
    line_buffer_ok p ->
    final_state (comment_loop fuel u p) = Some p' -> line_buffer_ok p'.
Proof.
  induction fuel as [|fuel IH]; intros u p p' Hp H; [discriminate|].
  cbn [comment_loop] in H. destruct (Py.first_is "#" u).
  - destruct (_unfoldLDIFLine p) as [u1 p1|e p1|] eqn:E; cbn [bind] in H.
    + eapply IH; [|exact H]. eapply unfold_buffer; [exact Hp|now rewrite E].
    + injection H as <-. eapply unfold_buffer; [exact Hp|now rewrite E].
    + discriminate.
  - now injection H as <-.
Qed.

(** The tokenizer leaves the parser's variables and the line buffer in
    order, whether it returns or raises. *)
Lemma token_frame (p p' : LDIFParser) :
  line_buffer_ok p ->
  final_state (_parseAttrTypeandValue p) = Some p' ->
  same_vars p p' /\ line_buffer_ok p'.
Proof.
  intros Hp H. split.
  - destruct (parse_token_total p) as (p1 & Hs & _ & [(tok & E & _)|(e & E)]);
      rewrite E in H; injection H as <-; exact Hs.
  - unfold _parseAttrTypeandValue in H.
    destruct (_unfoldLDIFLine p) as [u1 p1|e p1|] eqn:E1; cbn [bind] in H.
    + assert (Hb1 : line_buffer_ok p1)
        by (eapply unfold_buffer; [exact Hp|now rewrite E1]).
      destruct (comment_loop _ u1 p1) as [u2 p2|e p2|] eqn:E2; cbn [bind] in H.
      * assert (Hb : line_buffer_ok p2)
          by (eapply comment_loop_buffer; [exact Hb1|now rewrite E2]).
        destruct (attr_type_and_value u2); injection H as <-; exact Hb.
      * injection H as <-. eapply comment_loop_buffer; [exact Hb1|now rewrite E2].
      * discriminate.
    + injection H as <-. eapply unfold_buffer; [exact Hp|now rewrite E1].
    + discriminate.
Qed.

Lemma record_loop_frame (fuel : nat) :
  forall r tok p p',
    line_buffer_ok p ->
    final_state (record_loop fuel r tok p) = Some p' ->
    same_vars p p' /\ line_buffer_ok p'.
Proof.
  induction fuel as [|fuel IH]; intros r tok p p' Hp H; [discriminate|].
  cbn [record_loop] in H.
  assert (Hend : forall q, final_state
                             (let '(dn, _, entry) := r in Ok (dn, entry) p) = Some q ->
                           same_vars p q /\ line_buffer_ok q).
  { intros q Hq. destruct r as [[dn ct] e]. injection Hq as <-.
    split; [apply same_vars_refl|assumption]. }
  destruct tok as [[t|] [v|]]; try (now apply Hend). clear Hend.
  destruct (record_step (_ignored_attr_types p) r t v) as [err|r'].
  { injection H as <-. split; [apply same_vars_refl|assumption]. }
  destruct (_parseAttrTypeandValue p) as [tok' p1|e p1|] eqn:E; cbn [bind] in H.
  - destruct (token_frame p p1) as [Hs Hb]; [exact Hp|now rewrite E|].
    destruct (IH _ _ _ _ Hb H) as [Hs' Hb'].
    split; [eapply same_vars_trans; eassumption|assumption].
  - injection H as <-. apply token_frame; [exact Hp|now rewrite E].
  - discriminate.
Qed.

Lemma entry_has_not_in (t : string) (e : Entry) :
  entry_has t e = false -> ~ In t (entry_keys e).
Proof.
  unfold entry_keys. induction e as [|[k vs] e IH]; cbn; [tauto|].
  intros H. apply orb_false_elim in H as [Hk H].
  apply String.eqb_neq in Hk. intros [E|Hin]; [contradiction|]. now apply IH.
Qed.

Lemma entry_append_values (t v : string) (e : Entry) :
  Forall (fun kv => snd kv <> []) e ->
  Forall (fun kv => snd kv <> []) (entry_append t v e).
Proof.
  induction 1 as [|[k vs] e Hk He IH]; cbn; [constructor|].
  destruct (String.eqb k t); constructor; auto.
  cbn. now destruct vs.
Qed.

Lemma entry_add_good (t v : string) (e : Entry) :
  t <> "dn" -> t <> "changetype" ->
  entry_good e -> entry_good (entry_add t v e).
Proof.
  intros Hdn Hct (Hnd & Hd & Hc & Hv). unfold entry_good, entry_add.
  destruct (entry_has t e) eqn:E.
  - rewrite entry_keys_append. repeat split; auto.
    now apply entry_append_values.
  - apply entry_has_not_in in E. unfold entry_keys in *.
    rewrite map_app. cbn [map fst]. repeat split.
    + apply NoDup_app; [assumption|repeat constructor; tauto|].
      intros x Hx [<-|[]]. contradiction.
    + rewrite in_app_iff. cbn. intuition congruence.
    + rewrite in_app_iff. cbn. intuition congruence.
    + apply Forall_app. split; [assumption|]. repeat constructor. discriminate.
Qed.

Lemma record_step_good (ign : list string) (r r' : record_vars) (t v : string) :
  record_step ign r t v = inr r' ->
  dn_good (fst (fst r)) /\ entry_good (snd r) ->
  dn_good (fst (fst r')) /\ entry_good (snd r').
Proof.
  destruct r as [[dn ct] e]. unfold record_step. cbn [fst snd].
  destruct (String.eqb_spec t "dn") as [->|Hdn].
  { destruct dn; [discriminate|]. destruct (is_dn v) eqn:Ev; [|discriminate].
    intros [= <-] [_ He]. now split. }
  destruct (String.eqb_spec t "changetype") as [->|Hct].
  { destruct dn; [|discriminate]. destruct ct; [discriminate|].
    destruct (negb (Py.mem v valid_changetype_dict)); [discriminate|].
    now intros [= <-]. }
  destruct (negb (Py.mem (Py.lower t) ign)); intros [= <-]; auto.
  intros [Hd He]. split; [assumption|]. now apply entry_add_good.
Qed.

Lemma record_loop_good (fuel : nat) :
  forall r tok p dn e p',
    dn_good (fst (fst r)) /\ entry_good (snd r) ->
    record_loop fuel r tok p = Ok (dn, e) p' ->
    dn_good dn /\ entry_good e.
Proof.
  induction fuel as [|fuel IH]; intros r tok p dn e p' Hr H; [discriminate|].
  cbn [record_loop] in H.
  assert (Hend : (let '(dn0, _, entry) := r in Ok (dn0, entry) p) = Ok (dn, e) p' ->
                 dn_good dn /\ entry_good e).
  { destruct r as [[dn0 ct] e0]. now intros [= <- <- _]. }
  destruct tok as [[t|] [v|]]; try (now apply Hend). clear Hend.
  destruct (record_step (_ignored_attr_types p) r t v) as [err|r'] eqn:Es;
    [discriminate|].
  destruct (_parseAttrTypeandValue p) as [tok' p1|e1 p1|]; cbn [bind] in H;
    try discriminate.
  eapply IH; [|exact H]. eapply record_step_good; eassumption.
Qed.

(** The outer loop: what has been added to the parser's variables when
    it returns or raises. *)
Lemma parse_loop_calls (fuel : nat) :
  forall p p',
    line_buffer_ok p ->
    final_state (parse_loop fuel p) = Some p' ->
    line_buffer_ok p' /\
    _max_entries p' = _max_entries p /\
    exists l,
      all_records p' = all_records p ++ l /\
      records_read p' = records_read p + List.length l /\
      Forall call_good l /\
      (_max_entries p <> 0 -> records_read p <= _max_entries p ->
       records_read p' <= _max_entries p).
Proof.
  induction fuel as [|fuel IH]; intros p p' Hb H; [discriminate|].
  assert (Hnil : forall q, same_vars p q -> line_buffer_ok q ->
                           line_buffer_ok q /\
                           _max_entries q = _max_entries p /\
                           exists l,
                             all_records q = all_records p ++ l /\
                             records_read q = records_read p + List.length l /\
                             Forall call_good l /\
                             (_max_entries p <> 0 -> records_read p <= _max_entries p ->
                              records_read q <= _max_entries p)).
  { intros q (Hm & _ & Hr & Ha) Hq. split; [assumption|]. split; [assumption|].
    exists []. rewrite app_nil_r, Nat.add_0_r. repeat split; auto. lia. }
  cbn [parse_loop] in H.
  destruct (negb (String.eqb (_line p) "")
            && ((_max_entries p =? 0) || (records_read p <? _max_entries p))) eqn:Ec.
  2:{ injection H as <-. apply Hnil; [apply same_vars_refl|assumption]. }
  destruct (_parseAttrTypeandValue p) as [tok p1|e p1|] eqn:E1; cbn [bind] in H;
    [|injection H as <-; destruct (token_frame p p1) as [? ?];
      [exact Hb|now rewrite E1|now apply Hnil]|discriminate].
  destruct (token_frame p p1) as [Hs1 Hb1]; [exact Hb|now rewrite E1|].
  destruct (record_loop (S (S (pending p1))) (None, None, []) tok p1)
    as [[dn e] p2|err p2|] eqn:E2; cbn [bind] in H; [| |discriminate].
  2:{ injection H as <-.
      destruct (record_loop_frame _ _ _ _ p2 Hb1 ltac:(now rewrite E2)) as [Hs2 Hb2].
      apply Hnil; [eapply same_vars_trans; eassumption|assumption]. }
  destruct (record_loop_frame _ _ _ _ p2 Hb1 ltac:(now rewrite E2)) as [Hs2 Hb2].
  pose proof (same_vars_trans _ _ _ Hs1 Hs2) as (Hm & Hi & Hr & Ha).
  assert (Hgood : dn_good dn /\ entry_good e).
  { eapply record_loop_good; [|exact E2]. cbn. split; [exact I|].
    repeat split; [constructor|tauto|tauto|constructor]. }
  destruct e as [|kv e].
  - destruct (IH _ _ Hb2 H) as (Hb' & Hm' & l & Hl1 & Hl2 & Hl3 & Hl4).
    split; [assumption|]. split; [congruence|]. exists l.
    rewrite Hl1, Hl2, Ha, Hr. repeat split; auto.
    rewrite Hl2, Hm, Hr in Hl4. exact Hl4.
  - destruct (IH (incr_records_read (handle dn (kv :: e) p2)) p') as
      (Hb' & Hm' & l & Hl1 & Hl2 & Hl3 & Hl4); [exact Hb2|exact H|].
    cbn [incr_records_read handle all_records records_read _max_entries] in *.
    split; [assumption|]. split; [congruence|]. exists ((dn, kv :: e) :: l).
    rewrite Hl1, Hl2, Ha, Hr, <- app_assoc. cbn [List.length app].
    split; [reflexivity|]. split; [lia|]. split.
    + constructor; [|assumption]. cbn. destruct Hgood as [Hd He].
      repeat split; try apply He; [assumption|discriminate].
    + intros Hne Hle. rewrite Hm, Hr in Hl4. 
      apply andb_prop in Ec as [_ Ec]. apply orb_prop in Ec as [Ec|Ec].
      * apply Nat.eqb_eq in Ec. contradiction.
      * apply Nat.ltb_lt in Ec. specialize (Hl4 Hne). lia.
Qed.

Lemma parse_loop_exit (fuel : nat) :
  forall p p', parse_loop fuel p = Ok tt p' -> may_start_record p' = false.
Proof.
  induction fuel as [|fuel IH]; intros p p' H; [discriminate|].
  cbn [parse_loop] in H. unfold may_start_record at 1.
  destruct (negb (String.eqb (_line p) "")
            && ((_max_entries p =? 0) || (records_read p <? _max_entries p))) eqn:Ec.
  2:{ injection H as <-. exact Ec. }
  destruct (_parseAttrTypeandValue p) as [tok p1|e p1|]; cbn [bind] in H;
    try discriminate.
  destruct (record_loop _ _ tok p1) as [[dn e] p2|err p2|]; cbn [bind] in H;
    try discriminate.
  destruct e; eapply IH; exact H.
Qed.

Lemma parse_calls (p p' : LDIFParser) :
  final_state (parse p) = Some p' ->
  line_buffer_ok p' /\
  _max_entries p' = _max_entries p /\
  exists l,
    all_records p' = all_records p ++ l /\
    records_read p' = records_read p + List.length l /\
    Forall call_good l /\
    (_max_entries p <> 0 -> records_read p <= _max_entries p ->
     records_read p' <= _max_entries p).
Proof.
  unfold parse. intros H.
  destruct (parse_loop_calls _ _ _ (line_buffer_ok_read_next p) H)
    as (Hb & Hm & l & Hl).
  destruct (same_vars_read_next p) as (Hm0 & _ & Hr0 & Ha0).
  rewrite Hm0, Hr0, Ha0 in *. split; [assumption|]. split; [assumption|].
  now exists l.
Qed.


(** X9: on every input, whether [parse] returns or raises,
    [records_read] is the number of calls of the handler, and with a
    cap that is not 0 it never exceeds the cap. *)
Theorem records_read_counts_calls (input : string) (ignored : list string)
    (max_entries : nat) :
  exists p',
    final_state (parse (LDIFRecordList input ignored max_entries)) = Some p' /\
    records_read p' = List.length (all_records p') /\
    (max_entries <> 0 -> List.length (all_records p') <= max_entries).
Proof.
  destruct (parse_total (LDIFRecordList input ignored max_entries))
    as (p' & Hfin & _).
  exists p'. split; [assumption|].
  destruct (parse_calls _ _ Hfin) as (_ & _ & l & Hl & Hr & _ & Hcap).
  cbn [LDIFRecordList all_records records_read _max_entries app Nat.add] in *.
  rewrite Hl. split; [assumption|]. intros Hne. rewrite <- Hr. apply Hcap; [assumption|lia].
Qed.

Lemma records_read_counts_calls_witness :
  exists p',
    final_state
      (parse (LDIFRecordList (lines ["cn: a"; ""; "cn: b"; ""; "cn: c"; ""]) [] 2)) =
      Some p' /\
    records_read p' = List.length (all_records p') /\
    List.length (all_records p') <= 2.
Proof.
  destruct (records_read_counts_calls
              (lines ["cn: a"; ""; "cn: b"; ""; "cn: c"; ""]) [] 2)
    as (p' & H1 & H2 & H3).
  exists p'. split; [exact H1|]. split; [exact H2|]. apply H3. discriminate.
Defined.

(** X10: when [parse] returns, the input has been read to its end, or
    the cap, which is then not 0, has been reached.  In the first case a
    second call of [parse] returns at once and changes nothing. *)
Theorem parse_reads_to_the_end (input : string) (ignored : list string)
    (max_entries : nat) (p' : LDIFParser) :
  parse (LDIFRecordList input ignored max_entries) = Ok tt p' ->
  ((_line p' = "" /\ _input_file p' = "") \/
   (max_entries <> 0 /\ records_read p' = max_entries)) /\
  (_line p' = "" -> parse p' = Ok tt p').
Proof.
  intros H.
  assert (Hfin : final_state (parse (LDIFRecordList input ignored max_entries)) = Some p')
    by now rewrite H.
  destruct (parse_calls _ _ Hfin) as (Hb & Hm & l & _ & _ & _ & Hcap).
  cbn [LDIFRecordList _max_entries records_read] in Hm, Hcap.
  unfold parse in H. apply parse_loop_exit in H. unfold may_start_record in H.
  split.
  - destruct (String.eqb_spec (_line p') "") as [E|_].
    + left. split; [assumption|now apply Hb].
    + right. cbn [negb andb] in H. apply orb_false_elim in H as [H1 H2].
      rewrite Hm in H1, H2. apply Nat.eqb_neq in H1. apply Nat.ltb_ge in H2.
      split; [assumption|]. specialize (Hcap H1). lia.
  - intros E. pose proof (Hb E) as Ef. unfold parse.
    assert (Hrn : read_next p' = p').
    { unfold read_next. rewrite Ef. cbn. destruct p'. cbn in *. now subst. }
    rewrite Hrn. cbn [parse_loop]. now rewrite E.
Qed.

Lemma parse_reads_to_the_end_witness :
  parse (mkParser "" 0 [] "" 1 [(Some "cn=a", [("cn", ["x"])])]) =
    Ok tt (mkParser "" 0 [] "" 1 [(Some "cn=a", [("cn", ["x"])])]).
Proof.
  apply (proj2 (parse_reads_to_the_end (lines ["dn: cn=a"; "cn: x"; ""]) [] 0
                  (mkParser "" 0 [] "" 1 [(Some "cn=a", [("cn", ["x"])])])
                  eq_refl)).
  reflexivity.
Defined.

(** ** Comments *)

Lemma comment_loop_fuel (f1 : nat) :
  forall f2 u p,
    (Py.first_is "#" u = true -> pending p + 2 <= f1) -> 1 <= f1 ->
    (Py.first_is "#" u = true -> pending p + 2 <= f2) -> 1 <= f2 ->
    comment_loop f1 u p = comment_loop f2 u p.
Proof.
  induction f1 as [|f1 IH]; intros f2 u p H1 H1' H2 H2'; [lia|].
  destruct f2 as [|f2]; [lia|]. cbn [comment_loop].
  destruct (Py.first_is "#" u) eqn:E; [|reflexivity].
  specialize (H1 eq_refl). specialize (H2 eq_refl).
  destruct (unfold_total p) as [(u1 & p1 & -> & _ & Hle & Hu & _) | ->];
    cbn [bind]; [|reflexivity].
  apply IH; try lia; intros E1; apply first_is_not_empty in E1; apply Hu in E1; lia.
Qed.

Lemma comment_loop_S (fuel : nat) (u : string) (p : LDIFParser) :
  comment_loop (S fuel) u p =
    if Py.first_is "#" u then
      let* (u', q) := _unfoldLDIFLine p in comment_loop fuel u' q
    else Ok u p.
Proof. reflexivity. Qed.

(** X11: a comment that is one physical line of 7-bit text is
    skipped: the tokenizer gives on a text that starts with it what it
    gives on the text after it, with the same parser state left, so a
    comment inside a record does not end the record.  The line after
    the comment is read as a line of its own also when it starts with a
    space: the second line of a folded comment is a line without a
    colon. *)
Theorem comment_is_skipped :
  (forall p c crlf T,
      no_crlf c = true -> is_7bit c = true ->
      _parseAttrTypeandValue (at_text p (comment_line c crlf ++ T)) =
        _parseAttrTypeandValue (at_text p T)) /\
  _parseAttrTypeandValue
    (at_text (LDIFRecordList "" [] 0)
       (lines ["# a note"; " that goes on"; "cn: x"])) =
    Ok (None, None) (at_text (LDIFRecordList "" [] 0) (lines ["cn: x"])).
Proof.
  split; [|reflexivity].
  intros p c crlf T Hc H7. unfold comment_line, _parseAttrTypeandValue.
  rewrite append_assoc.
  rewrite unfold_line; [|exact Hc|exact H7].
  cbn [bind]. rewrite comment_loop_S.
  cbn [Py.first_is]. rewrite Ascii.eqb_refl.
  destruct (unfold_total (at_text p T)) as [(u1 & p1 & -> & _ & Hle & Hu & _) | ->];
    cbn [bind]; [|reflexivity].
  rewrite (comment_loop_fuel (S (pending (at_text p T))) (S (S (pending p1))) u1 p1);
    try lia; try reflexivity;
    intros E1; apply first_is_not_empty in E1; apply Hu in E1; lia.
Qed.

Lemma comment_is_skipped_witness :
  _parseAttrTypeandValue
    (at_text (LDIFRecordList "" [] 0) (comment_line " a note" true ++ lines ["cn: x"])) =
    _parseAttrTypeandValue (at_text (LDIFRecordList "" [] 0) (lines ["cn: x"])).
Proof.
  exact (proj1 comment_is_skipped (LDIFRecordList "" [] 0) " a note" true
           (lines ["cn: x"]) eq_refl eq_refl).
Defined.

(** ** Records before an error, and [ParseLDIF] *)

Lemma at_text_after_calls_nil (p : LDIFParser) (T : string) :
  at_text (after_calls p []) T = at_text p T.
Proof.
  unfold at_text, after_calls. cbn. now rewrite Nat.add_0_r, app_nil_r.
Qed.

Lemma at_text_after_calls_cons (p : LDIFParser) (dn : option string) (e : Entry)
    (l : list (option string * Entry)) (T : string) :
  at_text (after_calls (incr_records_read (handle dn e p)) l) T =
    at_text (after_calls p ((dn, e) :: l)) T.
Proof.
  unfold at_text, after_calls, incr_records_read, handle. cbn.
  rewrite <- app_assoc. cbn. f_equal. lia.
Qed.

Lemma first_is_ldif_text_then (rs : list ldif_record) (T : string) :
  forallb record_ok rs = true ->
  Py.first_is " " T = false ->
  Py.first_is " " (ldif_text rs ++ T) = false.
Proof.
  intros Hok HT. destruct rs as [|r rs]; [exact HT|].
  cbn [forallb] in Hok. apply andb_prop in Hok as [Hr _].
  unfold ldif_text. cbn [map Py.join]. rewrite append_assoc.
  now apply first_is_record_text.
Qed.

(** Without a cap the outer loop goes through well-formed records and
    on to what follows them. *)
Lemma parse_loop_records_then (ignored : list string) (rs : list ldif_record)
    (T : string) :
  forallb record_ok rs = true ->
  Py.first_is " " T = false ->
  forall fuel p,
    _ignored_attr_types p = map Py.lower ignored ->
    _max_entries p = 0 ->
    parse_loop (List.length rs + fuel) (at_text p (ldif_text rs ++ T)) =
      parse_loop fuel
        (at_text (after_calls p (map (dispatched ignored)
                                   (filter (has_entry ignored) rs))) T).
Proof.
  intros Hok HT. induction rs as [|r rs IH]; intros fuel p Hign Hmax.
  - cbn [List.length Nat.add filter map ldif_text Py.join append].
    now rewrite at_text_after_calls_nil.
  - cbn [forallb] in Hok. apply andb_prop in Hok as [Hr Hrs].
    specialize (IH Hrs).
    cbn [List.length Nat.add]. unfold ldif_text. cbn [map Py.join].
    fold (ldif_text rs). rewrite append_assoc.
    rewrite parse_loop_S.
    2:{ apply may_start_record_at_text; [|now left].
        unfold record_text. rewrite !length_append. simpl length. lia. }
    destruct (record_ok_lines ignored _ Hr) as [Hl Ha]. rewrite <- Hign in Ha.
    rewrite record_text_lines.
    rewrite (record_body_ok p (ldif_text rs ++ T) (record_lines r) (None, None, [])
               (r_dn r) None (entry_of (kept ignored (r_attrs r))));
      [|now apply first_is_ldif_text_then|assumption|assumption].
    cbn [bind filter]. pose proof (entry_of_has_entry ignored r) as He.
    destruct (entry_of (kept ignored (r_attrs r))) as [|kv e] eqn:Ee; rewrite He.
    + now apply IH.
    + change (incr_records_read
                (handle (r_dn r) (kv :: e) (at_text p (ldif_text rs ++ T))))
        with (at_text (incr_records_read (handle (r_dn r) (kv :: e) p))
                (ldif_text rs ++ T)).
      rewrite IH by assumption. cbn [map]. unfold dispatched at 2. rewrite Ee.
      now rewrite at_text_after_calls_cons.
Qed.

Lemma violation_raises (toks : list (string * string)) (T : string)
    (p : LDIFParser) (fuel : nat) :
  forallb line_ok toks = true ->
  Py.first_is " " T = false ->
  violation toks ->
  _max_entries p = 0 \/ records_read p < _max_entries p ->
  exists e X,
    parse_loop (S fuel) (at_text p (attr_lines toks ++ T)) = Raise e (at_text p X).
Proof.
  intros Hok HT Hv Hcap.
  destruct (violation_assemble (_ignored_attr_types p) toks Hv) as (err & Ha).
  destruct (record_body_raise p T toks (None, None, []) err HT Hok Ha) as (X & HX).
  exists err, X. rewrite parse_loop_S, HX; [reflexivity|].
  apply may_start_record_at_text; [|assumption].
  destruct toks as [|tv toks]; [discriminate|].
  pose proof (attr_lines_length (tv :: toks) T) as H. simpl in H. lia.
Qed.

(** X12: when well-formed records are followed by a record that breaks
    a rule of [dn:] and [changetype:] lines, [parse], without a cap,
    raises after the handler has been called for the records before,
    those with an entry, in their order; [ParseLDIF] raises too, so that
    its caller gets none of them. *)
Theorem records_before_error (ignored : list string) (rs : list ldif_record)
    (toks : list (string * string)) (T : string) :
  forallb record_ok rs = true ->
  forallb line_ok toks = true ->
  Py.first_is " " T = false ->
  violation toks ->
  exists e p',
    parse (LDIFRecordList (ldif_text rs ++ attr_lines toks ++ T) ignored 0) =
      Raise e p' /\
    all_records p' = map (dispatched ignored) (filter (has_entry ignored) rs) /\
    records_read p' = List.length (filter (has_entry ignored) rs) /\
    ParseLDIF (ldif_text rs ++ attr_lines toks ++ T) ignored 0 = Raise e p'.
Proof.
  intros Hrs Hok HT Hv.
  set (text := (ldif_text rs ++ attr_lines toks ++ T)%string).
  set (p0 := LDIFRecordList text ignored 0).
  assert (HT' : Py.first_is " " (attr_lines toks ++ T) = false).
  { apply first_is_attr_lines; [discriminate| |assumption].
    now apply line_ok_no_space. }
  assert (Hparse : exists e X,
             parse p0 =
               Raise e (at_text (after_calls p0
                                   (map (dispatched ignored)
                                      (filter (has_entry ignored) rs))) X)).
  { unfold parse. rewrite read_next_eq. cbn [p0 LDIFRecordList _input_file].
    fold p0. rewrite pending_at_text.
    assert (Hlen : List.length rs <= length text).
    { unfold text. rewrite length_append. pose proof (ldif_text_length rs). lia. }
    replace (S (length text))
      with (List.length rs + S (length text - List.length rs)) by lia.
    unfold text at 2.
    rewrite (parse_loop_records_then ignored rs _ Hrs HT'); [|reflexivity|reflexivity].
    apply violation_raises; auto. }
  destruct Hparse as (e & X & Hp).
  exists e, (at_text (after_calls p0 (map (dispatched ignored)
                                        (filter (has_entry ignored) rs))) X).
  split; [exact Hp|]. split; [reflexivity|]. split.
  - cbn. now rewrite length_map.
  - unfold ParseLDIF. fold text. fold p0. now rewrite Hp.
Qed.

Lemma records_before_error_witness :
  exists e p',
    parse (LDIFRecordList
             (ldif_text [mkRecord (Some "cn=a") [("cn", "a")]] ++
              attr_lines [("changetype", "add")] ++ nl) [] 0) = Raise e p' /\
    all_records p' = [(Some "cn=a", [("cn", ["a"])])] /\
    records_read p' = 1 /\
    ParseLDIF (ldif_text [mkRecord (Some "cn=a") [("cn", "a")]] ++
               attr_lines [("changetype", "add")] ++ nl) [] 0 = Raise e p'.
Proof.
  refine (records_before_error [] [mkRecord (Some "cn=a") [("cn", "a")]]
            [("changetype", "add")] nl eq_refl eq_refl eq_refl _).
  apply (ChangetypeFirst [] "add" []). simpl. tauto.
Defined.

Lemma accepted_firstn (ignored : list string) (max_entries : nat)
    (rs : list ldif_record) :
  0 < max_entries ->
  forall n,
    accepted ignored max_entries n rs =
      firstn (max_entries - n) (filter (has_entry ignored) rs).
Proof.
  intros Hm. induction rs as [|r rs IH]; intros n.
  - now rewrite firstn_nil.
  - cbn [accepted filter].
    destruct (Nat.eqb_spec max_entries 0) as [|_]; [lia|]. cbn [orb].
    destruct (Nat.ltb_spec n max_entries) as [Hlt|Hge].
    + destruct (has_entry ignored r); [|apply IH].
      rewrite IH. replace (max_entries - n) with (S (max_entries - (n + 1))) by lia.
      reflexivity.
    + replace (max_entries - n) with 0 by lia. reflexivity.
Qed.

(** X13: on the text of well-formed records, of which some may have
    an empty entry, [ParseLDIF] returns the records with an entry, in
    the order of the input: all of them when [maxentries] is 0, else
    the first [maxentries] of them. *)
Theorem ParseLDIF_returns_records (ignored : list string) (rs : list ldif_record)
    (maxentries : nat) :
  forallb record_ok rs = true ->
  exists p',
    ParseLDIF (ldif_text rs) ignored maxentries =
      Ok (map (dispatched ignored)
            (if maxentries =? 0 then filter (has_entry ignored) rs
             else firstn maxentries (filter (has_entry ignored) rs))) p'.
Proof.
  intros Hok. destruct (parse_records ignored rs maxentries Hok) as (p' & Hp & Ha & _).
  exists p'. unfold ParseLDIF. rewrite Hp. cbn [bind]. rewrite Ha.
  destruct (Nat.eqb_spec maxentries 0) as [->|Hne].
  - now rewrite accepted_unlimited.
  - rewrite accepted_firstn by lia. now rewrite Nat.sub_0_r.
Qed.

Lemma ParseLDIF_returns_records_witness :
  exists p',
    ParseLDIF
      (ldif_text [mkRecord (Some "cn=a") [("cn", "a")];
                  mkRecord (Some "cn=e") [("mail", "e@x")];
                  mkRecord None [("cn", "b")];
                  mkRecord (Some "cn=c") [("cn", "c")]]) ["MAIL"] 2 =
      Ok [(Some "cn=a", [("cn", ["a"])]); (None, [("cn", ["b"])])] p'.
Proof.
  exact (ParseLDIF_returns_records ["MAIL"]
           [mkRecord (Some "cn=a") [("cn", "a")];
            mkRecord (Some "cn=e") [("mail", "e@x")];
            mkRecord None [("cn", "b")];
            mkRecord (Some "cn=c") [("cn", "c")]] 2 eq_refl).
Defined.

(** ** The entry of a record *)

(** X5: when [parse] returns on a record of lines [type: value], among
    them [dn:] and [changetype:] lines where the rules allow, the entry
    handed to the handler holds, for each attribute type that is not
    [dn], [changetype] or ignored, the values of the lines of that type
    in the order of the lines, and nothing for any other type. *)
Theorem entry_collects_values (ignored : list string)
    (toks : list (string * string)) (p' : LDIFParser) :
  forallb line_ok toks = true ->
  parse (LDIFRecordList (attr_lines toks ++ nl) ignored 0) = Ok tt p' ->
  forall dn e t,
    In (dn, e) (all_records p') ->
    entry_get t e =
      if String.eqb t "dn" || String.eqb t "changetype"
         || Py.mem (Py.lower t) (map Py.lower ignored)
      then None
      else match values_of t toks with
           | [] => None
           | v :: vs => Some (v :: vs)
           end.
Proof.
  intros Hok. unfold parse. rewrite read_next_eq.
  cbn [LDIFRecordList _input_file].
  set (p0 := LDIFRecordList (attr_lines toks ++ nl) ignored 0).
  rewrite pending_at_text.
  assert (Hlen : 1 <= length (attr_lines toks ++ nl)).
  { rewrite length_append. simpl length. lia. }
  rewrite parse_loop_S by (apply may_start_record_at_text; [assumption|now left]).
  destruct (assemble (_ignored_attr_types p0) (None, None, []) toks)
    as [err|[[dn0 ct0] e0]] eqn:Ea.
  - destruct (record_body_raise p0 (nl ++ "") toks (None, None, []) err
                eq_refl Hok Ea) as (X & HX).
    change (nl ++ "")%string with nl in HX. rewrite HX. discriminate.
  - pose proof (record_body_ok p0 "" toks (None, None, []) dn0 ct0 e0
                  eq_refl Hok Ea) as HX.
    change (nl ++ "")%string with nl in HX. rewrite HX.
    cbn [bind]. destruct (length (attr_lines toks ++ nl)) as [|n] eqn:En; [lia|].
    destruct e0 as [|kv e0]; cbn; intros [= <-] dn e t Hin; cbn in Hin;
      [contradiction|].
    destruct Hin as [[= <- <-]|[]].
    apply (assemble_collects_values _ _ _ _ _ t Ea).
Qed.

Lemma entry_collects_values_witness :
  entry_get "cn" [("cn", ["Alice"; "Alicia"]); ("sn", ["A"])] =
    Some ["Alice"; "Alicia"].
Proof.
  apply (entry_collects_values ["mail"]
           [("dn", "cn=a"); ("changetype", "add"); ("cn", "Alice"); ("Mail", "a@x");
            ("sn", "A"); ("cn", "Alicia")]
           (mkParser "" 0 ["mail"] "" 1
              [(Some "cn=a", [("cn", ["Alice"; "Alicia"]); ("sn", ["A"])])])
           eq_refl eq_refl (Some "cn=a")
           [("cn", ["Alice"; "Alicia"]); ("sn", ["A"])] "cn").
  now left.
Defined.
